(** * Bloom filter and HyperLogLog (task01.py, task02.py)

    A shallow embedding of the two probabilistic structures of the
    repository and the properties their specification states.

    - Python integers are [Z]; lists are [list Z] indexed as Python does
      (negative indices count from the end, anything else out of range
      raises [IndexError]).
    - Exceptions are the [Error] results of a small error monad.
    - Python floats are idealised as real numbers ([R]): rounding is not
      modelled, the exceptions of [/] and [math.log] are. *)

From Stdlib Require Import ZArith Reals Lra Lia Bool.
From Stdlib Require Import Strings.String Strings.Ascii Strings.Byte.
From stdpp Require Import base tactics option list numbers strings pretty.
From Equations Require Import Equations.

Local Open Scope Z_scope.

(** ** Exceptions and the error monad *)

Inductive exn : Set :=
| ValueError
| TypeError
| IndexError
| ZeroDivisionError.

Inductive result (A : Type) : Type :=
| Ok (a : A)
| Error (e : exn).
Arguments Ok {A} a.
Arguments Error {A} e.

#[global] Instance result_ret : MRet result := fun A a => Ok a.

#[global] Instance result_bind : MBind result := fun A B k r =>
  match r with
  | Ok a => k a
  | Error e => Error e
  end.

(** [for x in xs: s = body(s, x)] with exceptions. *)
Fixpoint for_each {A S : Type} (body : S -> A -> result S) (xs : list A) (s : S)
  : result S :=
  match xs with
  | [] => Ok s
  | x :: xs' => s' ← body s x; for_each body xs' s'
  end.

(** ** Python values *)

(** The values that reach the two classes: [None], an [int], a [str]. *)
Inductive value : Type :=
| VNone
| VInt (n : Z)
| VStr (s : string).

(** [str(v)] *)
Definition str (v : value) : string :=
  match v with
  | VNone => "None"%string
  | VInt n => pretty n
  | VStr s => s
  end.

(** [s.encode('utf-8')]: a [string] already holds the UTF-8 bytes. *)
Definition encode_utf8 (s : string) : list byte := list_byte_of_string s.

Definition is_none (v : value) : bool :=
  match v with VNone => true | _ => false end.

(** ** Python lists *)

(** [range(n)] *)
Definition range (n : Z) : list Z := seqZ 0 n.

(** Position of index [i] in a list of length [n], if it has one. *)
Definition norm_index (n : nat) (i : Z) : option nat :=
  let k := if i <? 0 then i + Z.of_nat n else i in
  if (0 <=? k) && (k <? Z.of_nat n) then Some (Z.to_nat k) else None.

(** [l[i]] *)
Definition getitem (l : list Z) (i : Z) : result Z :=
  match norm_index (length l) i with
  | Some k => match l !! k with Some v => Ok v | None => Error IndexError end
  | None => Error IndexError
  end.

(** [l[i] = v] *)
Definition setitem (l : list Z) (i : Z) (v : Z) : result (list Z) :=
  match norm_index (length l) i with
  | Some k => Ok (<[k := v]> l)
  | None => Error IndexError
  end.

(** [a % b] *)
Definition py_mod (a b : Z) : result Z :=
  if b =? 0 then Error ZeroDivisionError else Ok (a mod b).

(** [a << n] and [a >> n] *)
Definition py_lshift (a n : Z) : result Z :=
  if n <? 0 then Error ValueError else Ok (Z.shiftl a n).

Definition py_rshift (a n : Z) : result Z :=
  if n <? 0 then Error ValueError else Ok (Z.shiftr a n).

(** ** mmh3.hash(key, signed=False): MurmurHash3_x86_32 with seed 0 *)

Module Murmur3.

Definition mask32 : Z := 0xFFFFFFFF.
Definition u32 (x : Z) : Z := Z.land x mask32.
Definition rotl32 (x r : Z) : Z :=
  u32 (Z.lor (Z.shiftl x r) (Z.shiftr x (32 - r))).

Definition c1 : Z := 0xcc9e2d51.
Definition c2 : Z := 0x1b873593.

Definition mix_k (k : Z) : Z := u32 (rotl32 (u32 (k * c1)) 15 * c2).

Definition mix_h (h k : Z) : Z :=
  u32 (rotl32 (Z.lxor h (mix_k k)) 13 * 5 + 0xe6546b64).

Definition byteZ (b : byte) : Z := Z.of_N (Byte.to_N b).

(** Four-byte little-endian blocks, then the tail of at most three bytes. *)
Fixpoint body (h : Z) (bs : list byte) : Z :=
  match bs with
  | b0 :: b1 :: b2 :: b3 :: rest =>
      body (mix_h h (byteZ b0 + Z.shiftl (byteZ b1) 8
                     + Z.shiftl (byteZ b2) 16 + Z.shiftl (byteZ b3) 24)) rest
  | [b0; b1; b2] =>
      Z.lxor h (mix_k (Z.lxor (Z.lxor (Z.shiftl (byteZ b2) 16)
                                      (Z.shiftl (byteZ b1) 8)) (byteZ b0)))
  | [b0; b1] =>
      Z.lxor h (mix_k (Z.lxor (Z.shiftl (byteZ b1) 8) (byteZ b0)))
  | [b0] => Z.lxor h (mix_k (byteZ b0))
  | [] => h
  end.

Definition fmix32 (h : Z) : Z :=
  let h := Z.lxor h (Z.shiftr h 16) in
  let h := u32 (h * 0x85ebca6b) in
  let h := Z.lxor h (Z.shiftr h 13) in
  let h := u32 (h * 0xc2b2ae35) in
  Z.lxor h (Z.shiftr h 16).

Definition hash_bytes (seed : Z) (bs : list byte) : Z :=
  fmix32 (Z.lxor (body (u32 seed) bs) (u32 (Z.of_nat (length bs)))).

End Murmur3.

Definition mmh3_hash (key : string) : Z :=
  Murmur3.hash_bytes 0 (encode_utf8 key).

(** ** task01.py: class BloomFilter *)

Module Bloom.

Record BloomFilter : Type := mkBloomFilter {
  size : Z;
  num_hashes : Z;
  bit_array : list Z
}.

Definition set_bit_array (self : BloomFilter) (arr : list Z) : BloomFilter :=
  {| size := size self; num_hashes := num_hashes self; bit_array := arr |}.

(** [isinstance(v, int) and v > 0] *)
Definition positive_int (v : value) : option Z :=
  match v with
  | VInt n => if 0 <? n then Some n else None
  | _ => None
  end.

(** [BloomFilter.__init__] *)
Definition init (size num_hashes : value) : result BloomFilter :=
  match positive_int size with
  | None => Error ValueError
  | Some sz =>
      match positive_int num_hashes with
      | None => Error ValueError
      | Some k =>
          Ok {| size := sz; num_hashes := k;
                bit_array := replicate (Z.to_nat sz) 0 |}
      end
  end.

(** The second loop of [BloomFilter.check]. *)
Fixpoint check_loop (bits indices : list Z) : result bool :=
  match indices with
  | [] => Ok true
  | index :: rest =>
      b ← getitem bits index;
      if b =? 0 then Ok false else check_loop bits rest
  end.

(** The invariant of a constructed filter. *)
Record wf (self : BloomFilter) : Prop := mkWf {
  wf_size : 0 < size self;
  wf_num_hashes : 0 < num_hashes self;
  wf_length : Z.of_nat (length (bit_array self)) = size self;
  wf_bits : Forall (fun b => b = 0 \/ b = 1) (bit_array self)
}.

(** The list [bits] with every position of [idxs] set to 1. *)
Definition set_bits (bits idxs : list Z) : list Z :=
  foldl (fun a i => <[Z.to_nat i := 1]> a) bits idxs.

(** Every position of [idxs] holds 1. *)
Definition all_set (bits idxs : list Z) : Prop :=
  Forall (fun i => bits !! Z.to_nat i = Some 1) idxs.

Section Hashes.

(** [int(hashlib.md5(b).hexdigest(), 16)] and
    [int(hashlib.sha256(b).hexdigest(), 16)]: the two fingerprints are
    parameters, nothing below depends on which functions they are. *)
Variable md5_int : list byte -> Z.
Variable sha256_int : list byte -> Z.

(** [BloomFilter._get_hashes] *)
Definition _get_hashes (self : BloomFilter) (item : value) : result (list Z) :=
  let hashes := [] in
  if is_none item then Ok hashes
  else
    let item_bytes := encode_utf8 (str item) in
    let hash1 := md5_int item_bytes in
    let hash2 := sha256_int item_bytes in
    for_each
      (fun hashes i =>
         combined_hash ← py_mod (hash1 + i * hash2) (size self);
         Ok (hashes ++ [combined_hash]))
      (range (num_hashes self)) hashes.

(** [BloomFilter.add] *)
Definition add (self : BloomFilter) (item : value) : result BloomFilter :=
  indices ← _get_hashes self item;
  for_each
    (fun self index =>
       arr ← setitem (bit_array self) index 1;
       Ok (set_bit_array self arr))
    indices self.

(** [BloomFilter.check] *)
Definition check (self : BloomFilter) (item : value) : result bool :=
  indices ← _get_hashes self item;
  if bool_decide (indices = []) && is_none item then Ok false
  else check_loop (bit_array self) indices.

(** A run of [add] calls, as a caller makes them. *)
Definition add_all (self : BloomFilter) (items : list value)
  : result BloomFilter :=
  for_each add items self.

(** The probe positions as the specification writes them:
    [(h1 + i*h2) mod size] for [i = 0 .. hash_count-1]. *)
Definition spec_probes (self : BloomFilter) (item : value) : list Z :=
  let h1 := md5_int (encode_utf8 (str item)) in
  let h2 := sha256_int (encode_utf8 (str item)) in
  (fun i => (h1 + i * h2) mod size self) <$> seqZ 0 (num_hashes self).

(** The filters a caller can hold: constructed, then filled by [add]. *)
Definition reachable (self : BloomFilter) : Prop :=
  exists (sz k : value) (fresh : BloomFilter) (items : list value),
    init sz k = Ok fresh /\ add_all fresh items = Ok self.

End Hashes.

(** hashlib's MD5 and SHA-256 fingerprints of the passwords of [main], to
    run the filter on them; any other input is mapped to 0. *)
Definition md5_table (b : list byte) : Z :=
  let s := string_of_list_byte b in
  if String.eqb s "password123" then 0x482c811da5d5b4bc6d497ffa98491e38
  else if String.eqb s "admin123" then 0x192023a7bbd73250516f069df18b500
  else if String.eqb s "qwerty123" then 0x3fc0a7acf087f549ac2b266baf94b8b1
  else if String.eqb s "newpassword" then 0x5e9d11a14ad1c8dd77e98ef9b53fd1ba
  else 0.

Definition sha256_table (b : list byte) : Z :=
  let s := string_of_list_byte b in
  if String.eqb s "password123"
  then 0xef92b778bafe771e89245b89ecbc08a44a4e166c06659911881f383d4473e94f
  else if String.eqb s "admin123"
  then 0x240be518fabd2724ddb6f04eeb1da5967448d7e831c08c8fa822809f74c720a9
  else if String.eqb s "qwerty123"
  then 0xdaaad6e5604e8e17bd9f108d91e26afe6281dac8fda0091040a7a6d7bd9b43b5
  else if String.eqb s "newpassword"
  then 0x89542505d659cecbb988bb5ccff5bccf85be2dfa8c221359079aee2531298bb
  else 0.

(** [BloomFilter(size=1000, num_hashes=3)] of [main]. *)
Definition main_filter : BloomFilter :=
  {| size := 1000; num_hashes := 3; bit_array := replicate 1000 0 |}.

End Bloom.

(** ** task02.py: class HyperLogLog *)

(** [math.log] and float division, on reals. *)
Definition math_log (x : R) : result R :=
  if Rlt_dec 0 x then Ok (ln x) else Error ValueError.

Definition py_div (a b : R) : result R :=
  if Req_dec_T b 0 then Error ZeroDivisionError else Ok (a / b)%R.

(** [sum(xs)] *)
Definition py_sum (xs : list R) : R := foldl Rplus 0%R xs.

Module HLL.

Record HyperLogLog : Type := mkHyperLogLog {
  p : Z;
  m : Z;
  registers : list Z;
  alpha : R
}.

Definition set_registers (self : HyperLogLog) (regs : list Z) : HyperLogLog :=
  {| p := p self; m := m self; registers := regs; alpha := alpha self |}.

(** [HyperLogLog._get_alpha], from the [m] that [__init__] has just set. *)
Definition _get_alpha (m : Z) : R :=
  if m =? 16 then (673 / 1000)%R
  else if m =? 32 then (697 / 1000)%R
  else if m =? 64 then (709 / 1000)%R
  else ((7213 / 10000) / (1 + (1079 / 1000) / IZR m))%R.

(** [HyperLogLog.__init__] *)
Definition init (p : value) : result HyperLogLog :=
  match p with
  | VInt p =>
      m ← py_lshift 1 p;
      Ok {| p := p; m := m; registers := replicate (Z.to_nat m) 0;
            alpha := _get_alpha m |}
  | _ => Error TypeError
  end.

(** The [while] loop of [_rho]; it is entered with [w <> 0] only. *)
Equations? rho_loop (rho w : Z) (Hw : w ≠ 0) : Z
  by wf (Z.to_nat (Z.log2 (Z.abs w))) lt :=
rho_loop rho w Hw with decide (Z.land w 1 = 0) => {
  | left Hbit => rho_loop (rho + 1) (Z.shiftr w 1) _
  | right _ => rho
}.
Proof.
  all: assert (Hdiv : w = 2 * Z.shiftr w 1)
    by (rewrite Z.shiftr_div_pow2 by lia;
        change 1 with (Z.ones 1) in Hbit; rewrite Z.land_ones in Hbit by lia;
        change (2 ^ 1) with 2 in *; pose proof (Z.div_mod w 2); lia).
  - lia.
  - assert (Hk : Z.shiftr w 1 ≠ 0) by lia.
    assert (Habs : Z.abs w = 2 * Z.abs (Z.shiftr w 1)) by lia.
    rewrite Habs, Z.log2_double by lia.
    pose proof (Z.log2_nonneg (Z.abs (Z.shiftr w 1))). lia.
Qed.

(** [HyperLogLog._rho] *)
Definition _rho (p w : Z) : Z :=
  match decide (w = 0) with
  | left _ => 32 - p + 1
  | right Hw => rho_loop 1 w Hw
  end.

(** [HyperLogLog.add] *)
Definition add (self : HyperLogLog) (item : value) : result HyperLogLog :=
  let x := mmh3_hash (str item) in
  let j := Z.land x (m self - 1) in
  w ← py_rshift x (p self);
  old ← getitem (registers self) j;
  regs ← setitem (registers self) j (Z.max old (_rho (p self) w));
  Ok (set_registers self regs).

(** [HyperLogLog.count], on reals: rounding is not modelled, and [2 ** -r]
    is taken as the real [2^(-r)], which is what the floats give for the
    registers [add] produces (between 0 and 33, no underflow). *)
Definition count (self : HyperLogLog) : result R :=
  let Z_sum := py_sum ((fun r => powerRZ 2 (- r)) <$> registers self) in
  E ← py_div (alpha self * IZR (m self) * IZR (m self)) Z_sum;
  let V := Z.of_nat (length (filter (fun r => r = 0) (registers self))) in
  E ← (if 0 <? V then
         q ← py_div (IZR (m self)) (IZR V);
         l ← math_log q;
         let E_star := (IZR (m self) * l)%R in
         if Rle_dec E (5 * IZR (m self) / 2) then Ok E_star else Ok E
       else Ok E);
  let H := ((1 / 30) * 2 ^ 32)%R in
  if Rlt_dec H E then
    l ← math_log (1 - E / 2 ^ 32);
    Ok (- 2 ^ 32 * l)%R
  else Ok E.

(** A run of [add] calls, and the same item added [n] times. *)
Definition add_all (self : HyperLogLog) (items : list value)
  : result HyperLogLog :=
  for_each add items self.

Definition add_repeat (n : nat) (self : HyperLogLog) (item : value)
  : result HyperLogLog :=
  add_all self (replicate n item).

(** The estimate as the specification writes it: [Z] is the sum of
    [2^(-r)] over the registers and [V] the number of registers at 0; the raw
    estimate [alpha * m^2 / Z] is replaced by [m * ln (m / V)] when [V > 0]
    and it is at most [2.5 * m]; the result [E] is replaced by
    [- 2^32 * ln (1 - E / 2^32)] when [E > 2^32 / 30]. *)
Definition spec_Z (regs : list Z) : R :=
  foldr (fun r acc => (powerRZ 2 (- r) + acc)%R) 0%R regs.

Definition spec_V (regs : list Z) : Z :=
  Z.of_nat (length (filter (fun r => r = 0) regs)).

Definition spec_raw (a : R) (m : Z) (regs : list Z) : R :=
  (a * (IZR m * IZR m) / spec_Z regs)%R.

Definition spec_small_range (a : R) (m : Z) (regs : list Z) : R :=
  let E := spec_raw a m regs in
  if decide (0 < spec_V regs) then
    if Rle_dec E (5 / 2 * IZR m) then (IZR m * ln (IZR m / IZR (spec_V regs)))%R
    else E
  else E.


(** The invariant of a constructed estimator. *)
Record wf (self : HyperLogLog) : Prop := mkWf {
  wf_p : 0 <= p self;
  wf_m : m self = 2 ^ p self;
  wf_length : Z.of_nat (length (registers self)) = m self
}.

(** The estimators a caller can hold: constructed, then fed by [add]. *)
Definition reachable (self : HyperLogLog) : Prop :=
  exists (prec : value) (fresh : HyperLogLog) (items : list value),
    init prec = Ok fresh /\ add_all fresh items = Ok self.

(** [HyperLogLog(p=prec)] before any [add]. *)
Definition fresh_state (prec : Z) : HyperLogLog :=
  {| p := prec; m := 2 ^ prec;
     registers := replicate (Z.to_nat (2 ^ prec)) 0;
     alpha := _get_alpha (2 ^ prec) |}.

(** Four items whose hashes are 0, 1, 2 and 3. *)
Definition saturating_items : list value :=
  [VStr "3fkoc3q"; VStr "0h8039m"; VStr "35nj58n"; VStr "0bertob"].

(** [r] is the 1-based position of the least-significant set bit of [w]. *)
Definition is_rank (w r : Z) : Prop :=
  1 <= r /\ Z.testbit w (r - 1) = true /\
  forall i, 0 <= i < r - 1 -> Z.testbit w i = false.

End HLL.

(** ** task01.py: check_password_uniqueness *)

#[global] Instance value_eq_dec : EqDecision value.
Proof. solve_decision. Defined.

(** Python's [dict], in insertion order: [d[k] = v] keeps the place of a key
    that is already there, and [d.get(k)]. *)
Fixpoint dict_set {V : Type} (d : list (value * V)) (k : value) (v : V)
  : list (value * V) :=
  match d with
  | [] => [(k, v)]
  | (k', v') :: d' =>
      if decide (k' = k) then (k', v) :: d' else (k', v') :: dict_set d' k v
  end.

Fixpoint dict_get {V : Type} (d : list (value * V)) (k : value) : option V :=
  match d with
  | [] => None
  | (k', v') :: d' => if decide (k' = k) then Some v' else dict_get d' k
  end.

Module Passwords.

(** What a caller passes as [passwords]: a list, a tuple, or anything else. *)
Inductive argument : Type :=
| ArgList (xs : list value)
| ArgTuple (xs : list value)
| ArgOther (v : value).

Definition INVALID : string := "некоректний (None)".
Definition USED : string := "вже використаний".
Definition UNIQUE : string := "унікальний".
Definition NOT_A_SEQUENCE : string :=
  "Помилка: Вхідні дані мають бути списком або кортежем".

(** The key under which the loop stores a password: [str(None)] for [None],
    the password itself otherwise. *)
Definition password_key (password : value) : value :=
  if is_none password then VStr (str password) else password.

Section Hashes.

Variable md5_int : list byte -> Z.
Variable sha256_int : list byte -> Z.

(** The body of the [for password in passwords] loop. *)
Definition check_one (bloom_filter : Bloom.BloomFilter)
    (results : list (value * string)) (password : value)
  : result (list (value * string)) :=
  if is_none password then Ok (dict_set results (VStr (str password)) INVALID)
  else
    present ← Bloom.check md5_int sha256_int bloom_filter password;
    if present : bool then Ok (dict_set results password USED)
    else Ok (dict_set results password UNIQUE).

(** [check_password_uniqueness]: the dict it returns and the lines it
    prints on [sys.stderr]. *)
Definition check_password_uniqueness (bloom_filter : Bloom.BloomFilter)
    (passwords : argument)
  : result (list (value * string) * list string) :=
  let results := [] in
  match passwords with
  | ArgOther _ => Ok (results, [NOT_A_SEQUENCE])
  | ArgList xs | ArgTuple xs =>
      results ← for_each (check_one bloom_filter) xs results;
      Ok (results, [])
  end.

(** The status the loop stores for a password, read off the bit array. *)
Definition password_status (bloom_filter : Bloom.BloomFilter) (password : value)
  : string :=
  if is_none password then INVALID
  else if bool_decide (Bloom.all_set (Bloom.bit_array bloom_filter)
                         (Bloom.spec_probes md5_int sha256_int bloom_filter
                            password))
       then USED else UNIQUE.

(** The dict after the loop has seen [xs], starting from [d]. *)
Definition stored (bloom_filter : Bloom.BloomFilter)
    (d : list (value * string)) (xs : list value) : list (value * string) :=
  foldl (fun d p => dict_set d (password_key p)
                      (password_status bloom_filter p)) d xs.

(** The positions that a run of [add] calls sets. *)
Definition all_probes (self : Bloom.BloomFilter) (items : list value) : list Z :=
  items ≫= (fun item =>
    if is_none item then [] else Bloom.spec_probes md5_int sha256_int self item).

End Hashes.
End Passwords.

(** ** task02.py: exact_count, hll_count and the report of main

    The progress messages these functions print on stdout are not
    modelled; their return values and exceptions are. *)

Module Report.

(** [exact_count]; the two readings of [time.perf_counter] are inputs. *)
Definition exact_count (ips : list value) (start_time end_time : R) : Z * R :=
  let unique_ips := remove_dups ips in
  let count := Z.of_nat (length unique_ips) in
  let execution_time := (end_time - start_time)%R in
  (count, execution_time).

(** [hll_count] *)
Definition hll_count (ips : list value) (start_time end_time : R)
  : result (R * R) :=
  let p_value := 14 in
  hll ← HLL.init (VInt p_value);
  hll ← HLL.add_all hll ips;
  count ← HLL.count hll;
  let execution_time := (end_time - start_time)%R in
  Ok (count, execution_time).

(** The numbers [main] prints. *)
Record report : Type := mkReport {
  exact_unique_count : Z;
  exact_time : R;
  hll_unique_count : R;
  hll_time : R;
  error_percent : R
}.

(** What [load_ips_from_log] hands to [main]: the truthy [remote_addr]
    values of the log. A [str] or an [int] is a [value]; a JSON array or
    object is a list or a dict, which is not hashable, and only its text
    [str(ip)] matters to [add]. *)
Inductive loaded : Type :=
| Hashable (v : value)
| Unhashable (text : string).

Definition loaded_value (ip : loaded) : value :=
  match ip with
  | Hashable v => v
  | Unhashable text => VStr text
  end.

(** The items as [set(ips)] takes them: it raises [TypeError] at the first
    item that is not hashable. *)
Fixpoint hashable_items (ips : list loaded) : result (list value) :=
  match ips with
  | [] => Ok []
  | Hashable v :: rest => vs ← hashable_items rest; Ok (v :: vs)
  | Unhashable _ :: _ => Error TypeError
  end.

(** [exact_count] and [hll_count] on the loaded items. *)
Definition exact_count_loaded (ips : list loaded) (start_time end_time : R)
  : result (Z * R) :=
  vs ← hashable_items ips;
  Ok (exact_count vs start_time end_time).

Definition hll_count_loaded (ips : list loaded) (start_time end_time : R)
  : result (R * R) :=
  hll_count (loaded_value <$> ips) start_time end_time.

(** [main] from the value [load_ips_from_log] returned ([None] when the file
    could not be read) and the four clock readings; it returns without a
    report when there is nothing to count. What it prints is not modelled. *)
Definition main (ips_list : option (list loaded)) (t1 t2 t3 t4 : R)
  : result (option report) :=
  match ips_list with
  | None | Some [] => Ok None
  | Some ips =>
      '(exact_unique_count, exact_time) ← exact_count_loaded ips t1 t2;
      '(hll_unique_count, hll_time) ← hll_count_loaded ips t3 t4;
      ratio ← py_div (Rabs (IZR exact_unique_count - hll_unique_count))
                     (IZR exact_unique_count);
      let error_percent := (ratio * 100)%R in
      Ok (Some {| exact_unique_count := exact_unique_count;
                  exact_time := exact_time;
                  hll_unique_count := hll_unique_count;
                  hll_time := hll_time;
                  error_percent := error_percent |})
  end.

(** The bucket and the rank of an item, and the value a register holds after
    a run of [add] calls. *)
Definition bucket (prec : Z) (item : value) : nat :=
  Z.to_nat (mmh3_hash (str item) mod 2 ^ prec).

Definition item_rank (prec : Z) (item : value) : Z :=
  HLL._rho prec (mmh3_hash (str item) / 2 ^ prec).

Definition register_after (prec : Z) (k : nat) (v : Z) (items : list value) : Z :=
  foldl (fun acc item =>
           if decide (bucket prec item = k) then Z.max acc (item_rank prec item)
           else acc) v items.

End Report.

(** * Properties *)

(** ** The error monad and Python lists *)

Lemma norm_index_in_range (n : nat) (i : Z) :
  0 <= i < Z.of_nat n -> norm_index n i = Some (Z.to_nat i).
Proof.
  intros Hi. unfold norm_index.
  destruct (Z.ltb_spec i 0); [lia|].
  destruct (Z.leb_spec 0 i); [|lia].
  destruct (Z.ltb_spec i (Z.of_nat n)); [reflexivity|lia].
Qed.

Lemma getitem_in_range (l : list Z) (i : Z) :
  0 <= i < Z.of_nat (length l) ->
  exists v, l !! Z.to_nat i = Some v /\ getitem l i = Ok v.
Proof.
  intros Hi. unfold getitem. rewrite norm_index_in_range by done.
  destruct (lookup_lt_is_Some_2 l (Z.to_nat i)) as [v Hv]; [lia|].
  exists v. by rewrite Hv.
Qed.

Lemma setitem_in_range (l : list Z) (i v : Z) :
  0 <= i < Z.of_nat (length l) ->
  setitem l i v = Ok (<[Z.to_nat i := v]> l).
Proof.
  intros Hi. unfold setitem. by rewrite norm_index_in_range.
Qed.

Lemma for_each_app {A S : Type} (body : S -> A -> result S) xs ys s :
  for_each body (xs ++ ys) s = (s' ← for_each body xs s; for_each body ys s').
Proof.
  revert s. induction xs as [|x xs IH]; intros s; simpl; [done|].
  destruct (body s x); simpl; [apply IH|done].
Qed.

Lemma for_each_collect {A B : Type} (body : list B -> A -> result (list B))
    (g : A -> B) (xs : list A) (acc : list B) :
  (forall acc i, body acc i = Ok (acc ++ [g i])) ->
  for_each body xs acc = Ok (acc ++ (g <$> xs)).
Proof.
  intros Hbody. revert acc.
  induction xs as [|x xs IH]; intros acc; cbn [for_each fmap list_fmap].
  - by rewrite app_nil_r.
  - rewrite Hbody. cbn [mbind result_bind]. rewrite IH. by rewrite <- app_assoc.
Qed.

(** ** Bloom filter *)

Module BloomProps.
Import Bloom.

Lemma set_bits_length bits idxs : length (set_bits bits idxs) = length bits.
Proof.
  revert bits. induction idxs as [|i idxs IH]; intros bits; simpl; [done|].
  unfold set_bits in *. simpl. by rewrite IH, length_insert.
Qed.

Lemma set_bits_lookup bits idxs (j : nat) :
  Forall (fun i => 0 <= i) idxs -> (j < length bits)%nat ->
  set_bits bits idxs !! j =
    if decide (Z.of_nat j ∈ idxs) then Some 1 else bits !! j.
Proof.
  intros Hpos. revert bits.
  induction Hpos as [|i idxs Hi _ IH]; intros bits Hj.
  - case_decide as H; [by apply elem_of_nil in H|done].
  - unfold set_bits in *. simpl. rewrite IH by (by rewrite length_insert).
    destruct (decide (Z.of_nat j ∈ idxs)) as [Hin|Hnin].
    + rewrite decide_True by (by right). done.
    + destruct (decide (Z.to_nat i = j)) as [<-|Hne].
      * rewrite list_lookup_insert_eq by done.
        rewrite decide_True; [done|]. rewrite Z2Nat.id by done. by left.
      * rewrite list_lookup_insert_ne by done.
        rewrite decide_False; [done|].
        intros [<-|?]%elem_of_cons; [|done]. by rewrite Nat2Z.id in Hne.
Qed.

Lemma set_bits_01 bits idxs :
  Forall (fun b => b = 0 \/ b = 1) bits ->
  Forall (fun b => b = 0 \/ b = 1) (set_bits bits idxs).
Proof.
  revert bits. induction idxs as [|i idxs IH]; intros bits Hb; [done|].
  unfold set_bits in *. simpl. apply IH.
  apply Forall_insert; [done|by right].
Qed.

Lemma set_bits_keeps_one bits idxs (j : nat) :
  bits !! j = Some 1 -> set_bits bits idxs !! j = Some 1.
Proof.
  revert bits. induction idxs as [|i idxs IH]; intros bits Hj; [done|].
  unfold set_bits in *. simpl. apply IH.
  destruct (decide (Z.to_nat i = j)) as [<-|Hne].
  - rewrite list_lookup_insert_eq; [done|]. by eapply lookup_lt_Some.
  - by rewrite list_lookup_insert_ne.
Qed.

Lemma check_loop_spec bits idxs :
  Forall (fun b => b = 0 \/ b = 1) bits ->
  Forall (fun i => 0 <= i < Z.of_nat (length bits)) idxs ->
  check_loop bits idxs = Ok (bool_decide (all_set bits idxs)).
Proof.
  intros Hb Hr. induction Hr as [|i idxs Hi _ IH]; [done|].
  simpl. destruct (getitem_in_range bits i Hi) as (v & Hv & ->). simpl.
  assert (v = 0 \/ v = 1) as [->| ->]
    by (eapply (proj1 (Forall_lookup _ _) Hb); done).
  - simpl. rewrite bool_decide_eq_false_2; [done|].
    intros H%Forall_cons_1. destruct H as [H _]. congruence.
  - simpl. rewrite IH. f_equal. apply bool_decide_ext. unfold all_set.
    rewrite Forall_cons. tauto.
Qed.

Section Hashes.

Variable md5_int : list byte -> Z.
Variable sha256_int : list byte -> Z.

Local Abbreviation _get_hashes := (Bloom._get_hashes md5_int sha256_int).
Local Abbreviation add := (Bloom.add md5_int sha256_int).
Local Abbreviation check := (Bloom.check md5_int sha256_int).
Local Abbreviation add_all := (Bloom.add_all md5_int sha256_int).
Local Abbreviation spec_probes := (Bloom.spec_probes md5_int sha256_int).

Lemma get_hashes_none self : _get_hashes self VNone = Ok [].
Proof. reflexivity. Qed.

Lemma get_hashes_some self item :
  size self ≠ 0 -> item ≠ VNone ->
  _get_hashes self item = Ok (spec_probes self item).
Proof.
  intros Hsz Hitem.
  assert (Hnone : is_none item = false) by (by destruct item).
  unfold Bloom._get_hashes, Bloom.spec_probes. rewrite Hnone.
  apply (for_each_collect _
    (fun i => (md5_int (encode_utf8 (str item))
               + i * sha256_int (encode_utf8 (str item))) mod size self)).
  intros acc i. unfold py_mod. by destruct (Z.eqb_spec (size self) 0).
Qed.

Lemma spec_probes_range self item :
  0 < size self ->
  Forall (fun i => 0 <= i < size self) (spec_probes self item).
Proof.
  intros Hsz. unfold Bloom.spec_probes. apply Forall_fmap, Forall_forall.
  intros i _. simpl. by apply Z.mod_pos_bound.
Qed.

Lemma spec_probes_length self item :
  Z.of_nat (length (spec_probes self item)) = Z.max 0 (num_hashes self).
Proof.
  unfold Bloom.spec_probes. rewrite length_fmap, length_seqZ. lia.
Qed.

Lemma add_loop self idxs :
  Forall (fun i => 0 <= i < Z.of_nat (length (bit_array self))) idxs ->
  for_each (fun self index => arr ← setitem (bit_array self) index 1;
                              Ok (set_bit_array self arr)) idxs self
  = Ok (set_bit_array self (set_bits (bit_array self) idxs)).
Proof.
  intros Hr. revert self Hr. induction idxs as [|i idxs IH]; intros self Hr.
  - by destruct self.
  - apply Forall_cons_1 in Hr as [Hi Hr]. simpl.
    rewrite setitem_in_range by done. simpl. rewrite IH.
    + done.
    + simpl. by rewrite length_insert.
Qed.

Lemma add_some self item :
  wf self -> item ≠ VNone ->
  add self item
  = Ok (set_bit_array self (set_bits (bit_array self) (spec_probes self item))).
Proof.
  intros [Hsz Hk Hlen Hb] Hitem. unfold Bloom.add.
  rewrite get_hashes_some by (done || lia). simpl.
  apply add_loop. rewrite Hlen. by apply spec_probes_range.
Qed.

Lemma add_none self : add self VNone = Ok self.
Proof. reflexivity. Qed.

Lemma add_total self item :
  wf self ->
  exists bits, add self item = Ok (set_bit_array self bits)
    /\ wf (set_bit_array self bits)
    /\ (forall j, bit_array self !! j = Some 1 -> bits !! j = Some 1).
Proof.
  intros Hwf.
  assert (item = VNone \/ item ≠ VNone) as [->|Hitem]
    by (destruct item; [by left|by right..]).
  - exists (bit_array self). rewrite add_none. by destruct self.
  - exists (set_bits (bit_array self) (spec_probes self item)).
    rewrite add_some by done. split; [done|]. split.
    + destruct Hwf as [Hsz Hk Hlen Hb]. split; simpl; try done.
      * by rewrite set_bits_length.
      * by apply set_bits_01.
    + intros j. apply set_bits_keeps_one.
Qed.

Lemma check_some self item :
  wf self -> item ≠ VNone ->
  check self item
  = Ok (bool_decide (all_set (bit_array self) (spec_probes self item))).
Proof.
  intros [Hsz Hk Hlen Hb] Hitem. unfold Bloom.check.
  rewrite get_hashes_some by (done || lia). simpl.
  replace (is_none item) with false by (by destruct item).
  rewrite andb_false_r. apply check_loop_spec; [done|].
  rewrite Hlen. by apply spec_probes_range.
Qed.

Lemma filter_init_wf sz k self : Bloom.init sz k = Ok self -> wf self.
Proof.
  unfold Bloom.init, positive_int. intros H.
  destruct sz as [|n|]; try done. destruct (Z.ltb_spec 0 n); [|done].
  destruct k as [|k|]; try done. destruct (Z.ltb_spec 0 k); [|done].
  injection H as <-. split; simpl; try done.
  - rewrite length_replicate. lia.
  - by apply Forall_replicate; left.
Qed.

Lemma filter_add_all_total self items :
  wf self ->
  exists bits, add_all self items = Ok (set_bit_array self bits)
    /\ wf (set_bit_array self bits)
    /\ (forall j, bit_array self !! j = Some 1 -> bits !! j = Some 1).
Proof.
  intros Hwf. revert self Hwf.
  induction items as [|item items IH]; intros self Hwf.
  - exists (bit_array self). by destruct self.
  - destruct (add_total self item Hwf) as (bits1 & Hadd & Hwf1 & Hmono1).
    destruct (IH _ Hwf1) as (bits2 & Hall & Hwf2 & Hmono2).
    exists bits2. unfold Bloom.add_all in *. cbn [for_each].
    rewrite Hadd. cbn [mbind result_bind]. rewrite Hall.
    split; [done|]. split; [done|]. intros j Hj. by apply Hmono2, Hmono1.
Qed.

Lemma filter_reachable_wf self : Bloom.reachable md5_int sha256_int self -> wf self.
Proof.
  intros (sz & k & fresh & items & Hinit & Hadds).
  apply filter_init_wf in Hinit.
  destruct (filter_add_all_total fresh items Hinit) as (bits & Heq & Hwf & _).
  congruence.
Qed.

Lemma all_set_after_add bits idxs :
  Forall (fun i => 0 <= i < Z.of_nat (length bits)) idxs ->
  all_set (set_bits bits idxs) idxs.
Proof.
  intros Hr. unfold all_set. apply Forall_forall. intros i Hi.
  pose proof (proj1 (Forall_forall _ _) Hr i Hi) as Hri. simpl in Hri.
  rewrite set_bits_lookup.
  - rewrite decide_True; [done|]. by rewrite Z2Nat.id by lia.
  - eapply Forall_impl; [exact Hr|]. intros k Hk. simpl in Hk. lia.
  - lia.
Qed.

(** C1. No false negatives, and they persist: on a filter that was
    constructed and filled by any calls of [add], adding an item [x] that is
    not [None] makes [check x] return [True], and [check x] still returns
    [True] after any further calls of [add], with any items (a bit that is 1
    is never cleared). No call raises. *)
Theorem no_false_negatives (self : BloomFilter) (x : value) :
  Bloom.reachable md5_int sha256_int self -> x ≠ VNone ->
  exists self1,
    add self x = Ok self1 /\ check self1 x = Ok true /\
    forall later : list value,
      exists self2, add_all self1 later = Ok self2 /\ check self2 x = Ok true.
Proof.
  intros Hwf%filter_reachable_wf Hx.
  pose proof Hwf as [Hsz Hk Hlen Hb].
  set (idxs := spec_probes self x).
  assert (Hr : Forall (fun i => 0 <= i < Z.of_nat (length (bit_array self))) idxs)
    by (rewrite Hlen; by apply spec_probes_range).
  destruct (add_total self x Hwf) as (bits1 & Hadd & Hwf1 & _).
  rewrite add_some in Hadd by done. injection Hadd as Hbits1.
  exists (set_bit_array self bits1). rewrite add_some by done.
  subst bits1. split; [done|].
  assert (Hset : all_set (set_bits (bit_array self) idxs) idxs)
    by (by apply all_set_after_add).
  split.
  - rewrite check_some by done. by rewrite bool_decide_eq_true_2.
  - intros later.
    destruct (filter_add_all_total _ later Hwf1) as (bits2 & Hall & Hwf2 & Hmono).
    eexists. split; [exact Hall|].
    rewrite check_some by done. rewrite bool_decide_eq_true_2; [done|].
    unfold all_set in *. simpl in *.
    eapply Forall_impl; [exact Hset|]. intros i Hi. by apply Hmono.
Qed.

(** C5. Double hashing: for an item that is not [None], the probe positions
    are [(h1 + i*h2) mod size] for [i = 0 .. num_hashes-1], with [h1] and
    [h2] the two fingerprints of the UTF-8 bytes of the item's text; [add]
    sets exactly these positions of the bit array to 1 and leaves the other
    positions, the size and the number of hashes as they were; [check]
    returns [True] if and only if all these positions hold 1. *)
Theorem double_hashing (self : BloomFilter) (x : value) :
  Bloom.reachable md5_int sha256_int self -> x ≠ VNone ->
  let h1 := md5_int (encode_utf8 (str x)) in
  let h2 := sha256_int (encode_utf8 (str x)) in
  let idxs := (fun i => (h1 + i * h2) mod size self) <$> seqZ 0 (num_hashes self) in
  _get_hashes self x = Ok idxs /\
  Z.of_nat (length idxs) = num_hashes self /\
  (exists self1,
     add self x = Ok self1 /\
     size self1 = size self /\ num_hashes self1 = num_hashes self /\
     length (bit_array self1) = length (bit_array self) /\
     forall j : nat, (j < length (bit_array self))%nat ->
       bit_array self1 !! j =
         if decide (Z.of_nat j ∈ idxs) then Some 1 else bit_array self !! j) /\
  (exists b, check self x = Ok b /\
     (b = true <-> Forall (fun i => bit_array self !! Z.to_nat i = Some 1) idxs)).
Proof.
  intros Hwf%filter_reachable_wf Hx h1 h2 idxs.
  pose proof Hwf as [Hsz Hk Hlen Hb].
  change idxs with (spec_probes self x).
  split; [apply get_hashes_some; [lia|done]|].
  split; [rewrite spec_probes_length; lia|].
  split.
  - eexists. split; [by apply add_some|]. simpl.
    rewrite set_bits_length. repeat split. intros j Hj.
    apply set_bits_lookup; [|done].
    eapply Forall_impl; [by apply spec_probes_range|].
    intros i Hi. simpl in Hi. lia.
  - eexists. split; [by apply check_some|]. apply bool_decide_eq_true.
Qed.

End Hashes.

(** The filter of [main] and one of its passwords. *)
Lemma no_false_negatives_witness :
  exists self1,
    Bloom.add md5_table sha256_table main_filter (VStr "password123") = Ok self1 /\
    Bloom.check md5_table sha256_table self1 (VStr "password123") = Ok true /\
    forall later : list value,
      exists self2, Bloom.add_all md5_table sha256_table self1 later = Ok self2 /\
        Bloom.check md5_table sha256_table self2 (VStr "password123") = Ok true.
Proof.
  apply (no_false_negatives md5_table sha256_table main_filter (VStr "password123")).
  - exists (VInt 1000), (VInt 3), main_filter, []. split; reflexivity.
  - discriminate.
Defined.

(** The probe positions of "password123" in the filter of [main], from the
    fingerprints hashlib gives. *)
Lemma double_hashing_witness :
  Bloom._get_hashes md5_table sha256_table main_filter (VStr "password123")
  = Ok [480; 247; 14].
Proof.
  refine (proj1 (double_hashing md5_table sha256_table main_filter
                   (VStr "password123") _ _)).
  - exists (VInt 1000), (VInt 3), main_filter, []. split; reflexivity.
  - discriminate.
Defined.

End BloomProps.

(** ** MurmurHash3 yields 32-bit values *)

Lemma u32_range x : 0 <= Murmur3.u32 x < 2 ^ 32.
Proof.
  unfold Murmur3.u32, Murmur3.mask32.
  change 0xFFFFFFFF with (Z.ones 32). rewrite Z.land_ones by lia.
  apply Z.mod_pos_bound. lia.
Qed.

Lemma lxor_range a b n :
  0 <= n -> 0 <= a < 2 ^ n -> 0 <= b < 2 ^ n -> 0 <= Z.lxor a b < 2 ^ n.
Proof.
  intros Hn Ha Hb.
  assert (Hnn : 0 <= Z.lxor a b) by (apply Z.lxor_nonneg; lia).
  split; [done|].
  destruct (Z.eq_dec (Z.lxor a b) 0) as [->|Hne]; [lia|].
  assert (0 < n).
  { destruct (Z.eq_dec n 0) as [->|]; [|lia].
    assert (a = 0) as -> by lia. assert (b = 0) as -> by lia. done. }
  apply Z.log2_lt_pow2; [lia|].
  eapply Z.le_lt_trans; [apply Z.log2_lxor; lia|].
  apply Z.max_lub_lt.
  - destruct (Z.eq_dec a 0) as [->|]; [simpl; lia|]. apply Z.log2_lt_pow2; lia.
  - destruct (Z.eq_dec b 0) as [->|]; [simpl; lia|]. apply Z.log2_lt_pow2; lia.
Qed.

Lemma shiftr_range a k n :
  0 <= k -> 0 <= a < 2 ^ n -> 0 <= Z.shiftr a k < 2 ^ n.
Proof.
  intros Hk Ha. rewrite Z.shiftr_div_pow2 by done.
  assert (0 < 2 ^ k) by (apply Z.pow_pos_nonneg; lia).
  split; [apply Z.div_pos; lia|].
  eapply Z.le_lt_trans; [|exact (proj2 Ha)].
  apply Z.div_le_upper_bound; [lia|]. nia.
Qed.

Lemma mmh3_hash_range key : 0 <= mmh3_hash key < 2 ^ 32.
Proof.
  unfold mmh3_hash, Murmur3.hash_bytes, Murmur3.fmix32.
  apply lxor_range; [lia|apply u32_range|].
  apply shiftr_range; [lia|apply u32_range].
Qed.

(** Published reference values of MurmurHash3_x86_32, with and without a
    seed, for every tail length. *)
Lemma murmur3_reference_values :
  mmh3_hash "" = 0 /\
  mmh3_hash "test" = 0xba6bd213 /\
  mmh3_hash "Hello, world!" = 0xc0363e43 /\
  mmh3_hash "The quick brown fox jumps over the lazy dog" = 0x2e4ff723 /\
  Murmur3.hash_bytes 1 [] = 0x514e28b7 /\
  Murmur3.hash_bytes 0xffffffff [] = 0x81f16f39 /\
  Murmur3.hash_bytes 0x9747b28c (encode_utf8 "a") = 0x7fa09ea6 /\
  Murmur3.hash_bytes 0x9747b28c (encode_utf8 "aa") = 0x5d211726 /\
  Murmur3.hash_bytes 0x9747b28c (encode_utf8 "aaa") = 0x283e0130 /\
  Murmur3.hash_bytes 0x9747b28c (encode_utf8 "aaaa") = 0x5a97808a.
Proof. vm_compute. repeat split. Qed.

Lemma saturating_items_hashes :
  (fun item => mmh3_hash (str item)) <$> HLL.saturating_items = [0; 1; 2; 3].
Proof. vm_compute. reflexivity. Qed.

(** ** HyperLogLog: registers *)

Module HLLProps.
Import HLL.

Lemma even_shiftr w : Z.land w 1 = 0 -> w = 2 * Z.shiftr w 1.
Proof.
  intros Hbit. rewrite Z.shiftr_div_pow2 by lia.
  change 1 with (Z.ones 1) in Hbit. rewrite Z.land_ones in Hbit by lia.
  change (2 ^ 1) with 2 in *. pose proof (Z.div_mod w 2). lia.
Qed.

Lemma rho_loop_rank rho w Hw : is_rank w (rho_loop rho w Hw - rho + 1).
Proof.
  funelim (rho_loop rho w Hw).
  - clear Heqcall.
    match goal with IH : is_rank _ _ |- _ => destruct IH as (Hr & Hbit1 & Hlow) end.
    set (r := rho_loop (rho + 1) (Z.shiftr w 1) _) in *.
    split; [lia|]. split.
    + rewrite Z.shiftr_spec in Hbit1 by lia.
      by replace (r - rho + 1 - 1) with (r - (rho + 1) + 1 - 1 + 1) by lia.
    + intros i Hi. destruct (Z.eq_dec i 0) as [->|Hi0].
      * rewrite Z.bit0_odd. rewrite (even_shiftr w Hbit).
        by rewrite Z.odd_even.
      * specialize (Hlow (i - 1)). rewrite Z.shiftr_spec in Hlow by lia.
        replace (i - 1 + 1) with i in Hlow by lia. apply Hlow. lia.
  - replace (rho - rho + 1) with 1 by lia.
    split; [lia|]. split; [|intros i Hi; lia]. clear Heq Heqcall.
    match goal with Hodd : Z.land w 1 ≠ 0 |- _ =>
      change 1 with (Z.ones 1) in Hodd; rewrite Z.land_ones in Hodd by lia;
      change (2 ^ 1) with 2 in Hodd end.
    change (1 - 1) with 0. rewrite Z.bit0_odd, Zodd_mod.
    pose proof (Z.mod_pos_bound w 2). apply Z.eqb_eq. lia.
Qed.

Lemma rho_zero prec : _rho prec 0 = 32 - prec + 1.
Proof. unfold _rho. by destruct (decide (0 = 0)). Qed.

Lemma rho_rank prec w : w ≠ 0 -> is_rank w (_rho prec w).
Proof.
  intros Hw. unfold _rho. destruct (decide (w = 0)) as [|Hw']; [done|].
  pose proof (rho_loop_rank 1 w Hw') as H.
  by replace (rho_loop 1 w Hw' - 1 + 1) with (rho_loop 1 w Hw') in H by lia.
Qed.

Lemma rank_unique w r1 r2 : is_rank w r1 -> is_rank w r2 -> r1 = r2.
Proof.
  intros (H1 & Hb1 & Hl1) (H2 & Hb2 & Hl2).
  destruct (Z.lt_trichotomy r1 r2) as [Hlt|[->|Hlt]]; [|done|].
  - rewrite (Hl2 (r1 - 1)) in Hb1 by lia. done.
  - rewrite (Hl1 (r2 - 1)) in Hb2 by lia. done.
Qed.

Lemma rank_bound w r n : 0 <= n -> 0 <= w < 2 ^ n -> is_rank w r -> r <= n.
Proof.
  intros Hn Hw (Hr & Hbit & _).
  destruct (Z.le_gt_cases r n) as [|Hgt]; [done|].
  destruct (Z.eq_dec w 0) as [->|]; [by rewrite Z.bits_0 in Hbit|].
  rewrite Z.bits_above_log2 in Hbit; [done|lia|].
  assert (Z.log2 w < n) by (apply Z.log2_lt_pow2; lia). lia.
Qed.

Lemma init_ok (prec : Z) :
  0 <= prec ->
  init (VInt prec)
  = Ok {| p := prec; m := 2 ^ prec;
          registers := replicate (Z.to_nat (2 ^ prec)) 0;
          alpha := _get_alpha (2 ^ prec) |}.
Proof.
  intros Hp. unfold init, py_lshift.
  destruct (Z.ltb_spec prec 0); [lia|]. cbn [mbind result_bind].
  by rewrite Z.shiftl_1_l.
Qed.

Lemma init_inv prec self :
  init prec = Ok self ->
  exists n, prec = VInt n /\ 0 <= n /\ p self = n /\ m self = 2 ^ n /\
    registers self = replicate (Z.to_nat (2 ^ n)) 0 /\
    alpha self = _get_alpha (2 ^ n).
Proof.
  destruct prec as [|n|]; try done. intros H.
  destruct (Z.ltb_spec n 0) as [Hneg|Hpos].
  - unfold init, py_lshift in H.
    destruct (Z.ltb_spec n 0); [done|lia].
  - rewrite init_ok in H by done. injection H as <-. by exists n.
Qed.

Lemma estimator_init_wf prec self : init prec = Ok self -> wf self.
Proof.
  intros (n & _ & Hn & Hp & Hm & Hregs & _)%init_inv.
  split; [lia|congruence|]. rewrite Hregs, length_replicate, Hm.
  assert (0 < 2 ^ n) by (apply Z.pow_pos_nonneg; lia). lia.
Qed.

Lemma bucket_low_bits self x :
  wf self -> Z.land x (m self - 1) = x mod 2 ^ p self.
Proof.
  intros [Hp Hm _]. rewrite Hm.
  replace (2 ^ p self - 1) with (Z.ones (p self))
    by (rewrite Z.ones_equiv; lia).
  by apply Z.land_ones.
Qed.

Lemma add_spec self item :
  wf self ->
  let x := mmh3_hash (str item) in
  let j := x mod 2 ^ p self in
  let w := x / 2 ^ p self in
  exists old,
    registers self !! Z.to_nat j = Some old /\
    add self item
    = Ok (set_registers self
            (<[Z.to_nat j := Z.max old (_rho (p self) w)]> (registers self))).
Proof.
  intros Hwf x j w. pose proof Hwf as [Hp Hm Hlen].
  assert (Hj : 0 <= j < Z.of_nat (length (registers self))).
  { rewrite Hlen, Hm. apply Z.mod_pos_bound, Z.pow_pos_nonneg; lia. }
  destruct (getitem_in_range _ _ Hj) as (old & Hold & Hget).
  exists old. split; [done|].
  unfold add, py_rshift. fold x. rewrite bucket_low_bits by done. fold j.
  destruct (Z.ltb_spec (p self) 0); [lia|]. cbn [mbind result_bind].
  rewrite Hget. cbn [mbind result_bind].
  rewrite setitem_in_range by done. cbn [mbind result_bind].
  by rewrite Z.shiftr_div_pow2 by done.
Qed.

Lemma add_wf self item self1 : wf self -> add self item = Ok self1 -> wf self1.
Proof.
  intros Hwf Hadd. destruct (add_spec self item Hwf) as (old & _ & Heq).
  rewrite Heq in Hadd. injection Hadd as <-.
  destruct Hwf as [Hp Hm Hlen]. split; simpl; try done.
  by rewrite length_insert.
Qed.

Lemma estimator_add_all_total self items :
  wf self ->
  exists regs, add_all self items = Ok (set_registers self regs)
    /\ wf (set_registers self regs).
Proof.
  intros Hwf. revert self Hwf.
  induction items as [|item items IH]; intros self Hwf.
  - exists (registers self). by destruct self.
  - destruct (add_spec self item Hwf) as (old & _ & Hadd).
    pose proof (add_wf _ _ _ Hwf Hadd) as Hwf1.
    destruct (IH _ Hwf1) as (regs & Hall & Hwf2).
    exists regs. unfold add_all in *. cbn [for_each].
    rewrite Hadd. cbn [mbind result_bind]. by rewrite Hall.
Qed.

Lemma estimator_reachable_wf self : reachable self -> wf self.
Proof.
  intros (prec & fresh & items & Hinit%estimator_init_wf & Hadds).
  destruct (estimator_add_all_total fresh items Hinit) as (regs & Heq & Hwf).
  congruence.
Qed.

Lemma add_again self item self1 :
  wf self -> add self item = Ok self1 -> add self1 item = Ok self1.
Proof.
  intros Hwf Hadd. pose proof (add_wf _ _ _ Hwf Hadd) as Hwf1.
  destruct (add_spec self item Hwf) as (old & Hold & Heq).
  rewrite Heq in Hadd. injection Hadd as <-.
  destruct (add_spec _ item Hwf1) as (old1 & Hold1 & Heq1).
  rewrite Heq1. simpl in *.
  rewrite list_lookup_insert_eq in Hold1 by (by eapply lookup_lt_Some).
  injection Hold1 as <-.
  rewrite <- Z.max_assoc, Z.max_id. unfold set_registers. simpl.
  by rewrite list_insert_insert_eq.
Qed.

Lemma add_repeat_fixed self item self1 (n : nat) :
  wf self -> add self item = Ok self1 -> add_repeat n self1 item = Ok self1.
Proof.
  intros Hwf Hadd. pose proof (add_again _ _ _ Hwf Hadd) as Hfix.
  unfold add_repeat, add_all.
  induction n as [|n IH]; [done|].
  cbn [replicate for_each]. rewrite Hfix. cbn [mbind result_bind]. exact IH.
Qed.

Lemma rho_bounded prec x :
  0 <= prec <= 32 -> 0 <= x < 2 ^ 32 ->
  0 <= _rho prec (x / 2 ^ prec) <= 32 - prec + 1.
Proof.
  intros Hp Hx. set (w := x / 2 ^ prec).
  destruct (Z.eq_dec w 0) as [->|Hw]; [rewrite rho_zero; lia|].
  pose proof (rho_rank prec w Hw) as Hrank.
  assert (Hpow : 0 < 2 ^ prec) by (apply Z.pow_pos_nonneg; lia).
  assert (Hw_range : 0 <= w < 2 ^ (32 - prec)).
  { split; [apply Z.div_pos; lia|]. apply Z.div_lt_upper_bound; [lia|].
    rewrite <- Z.pow_add_r by lia.
    replace (prec + (32 - prec)) with 32 by lia. lia. }
  pose proof (rank_bound w _ (32 - prec) ltac:(lia) Hw_range Hrank).
  destruct Hrank as [? _]. lia.
Qed.

Lemma add_bounded self item self1 :
  wf self -> p self <= 32 ->
  Forall (fun r => 0 <= r <= 32 - p self + 1) (registers self) ->
  add self item = Ok self1 ->
  Forall (fun r => 0 <= r <= 32 - p self1 + 1) (registers self1)
  /\ p self1 = p self.
Proof.
  intros Hwf Hp32 Hb Hadd.
  destruct (add_spec self item Hwf) as (old & Hold & Heq).
  rewrite Heq in Hadd. injection Hadd as <-. simpl. split; [|done].
  apply Forall_insert; [done|].
  pose proof (proj1 (Forall_lookup _ _) Hb _ _ Hold) as Hold_b. simpl in Hold_b.
  pose proof (rho_bounded (p self) (mmh3_hash (str item))
                ltac:(destruct Hwf; lia) (mmh3_hash_range _)).
  lia.
Qed.

Lemma add_all_bounded self items :
  wf self -> p self <= 32 ->
  Forall (fun r => 0 <= r <= 32 - p self + 1) (registers self) ->
  exists self1,
    add_all self items = Ok self1 /\
    Forall (fun r => 0 <= r <= 32 - p self + 1) (registers self1).
Proof.
  revert self. induction items as [|item items IH]; intros self Hwf Hp Hb.
  - by exists self.
  - destruct (add_spec self item Hwf) as (old & _ & Hadd).
    destruct (add_bounded _ _ _ Hwf Hp Hb Hadd) as [Hb1 Hp1].
    pose proof (add_wf _ _ _ Hwf Hadd) as Hwf1.
    unfold add_all in *. cbn [for_each]. rewrite Hadd. cbn [mbind result_bind].
    rewrite <- Hp1. apply IH; [done|lia|done].
Qed.

(** C6. What [add] does: it takes the 32-bit hash [x] of the text of
    the item, the low [p] bits of [x] as the bucket [j] (so [0 <= j < m]), the
    remaining higher bits as [w], the rank of [w] as the 1-based position of
    its least-significant set bit, or [32 - p + 1] when [w = 0], and stores
    [max registers[j] rank] in register [j]; every other register and the
    other fields keep their values. *)
Theorem add_semantics (self : HyperLogLog) (item : value) :
  reachable self ->
  let x := mmh3_hash (str item) in
  let j := x mod 2 ^ p self in
  let w := x / 2 ^ p self in
  let rank := _rho (p self) w in
  0 <= x < 2 ^ 32 /\
  0 <= j < m self /\
  (forall i, 0 <= i -> Z.testbit j i = (i <? p self) && Z.testbit x i) /\
  (forall i, 0 <= i -> Z.testbit w i = Z.testbit x (i + p self)) /\
  (w = 0 -> rank = 32 - p self + 1) /\
  (w ≠ 0 -> is_rank w rank) /\
  exists old self1,
    registers self !! Z.to_nat j = Some old /\
    add self item = Ok self1 /\
    registers self1 !! Z.to_nat j = Some (Z.max old rank) /\
    (forall k : nat, k ≠ Z.to_nat j ->
       registers self1 !! k = registers self !! k) /\
    length (registers self1) = length (registers self) /\
    p self1 = p self /\ m self1 = m self /\ alpha self1 = alpha self.
Proof.
  intros Hwf%estimator_reachable_wf x j w rank. pose proof Hwf as [Hp Hm Hlen].
  split; [apply mmh3_hash_range|].
  split; [rewrite Hm; apply Z.mod_pos_bound, Z.pow_pos_nonneg; lia|].
  split; [intros i Hi; by apply Z.testbit_mod_pow2|].
  split; [intros i Hi; by apply Z.div_pow2_bits|].
  split; [intros Hw; subst rank; rewrite Hw; apply rho_zero|].
  split; [apply rho_rank|].
  destruct (add_spec self item Hwf) as (old & Hold & Hadd).
  exists old. eexists. split; [done|]. split; [exact Hadd|]. simpl.
  split; [apply list_lookup_insert_eq; by eapply lookup_lt_Some|].
  split; [intros k Hk; by apply list_lookup_insert_ne|].
  by rewrite length_insert.
Qed.

(** C10. Bounded registers: on an estimator constructed with a precision
    [0 < prec <= 32], any run of [add] calls succeeds and leaves every
    register between 0 and the sentinel rank [32 - prec + 1]. *)
Theorem registers_bounded (prec : Z) (fresh : HyperLogLog) (items : list value) :
  0 < prec <= 32 -> init (VInt prec) = Ok fresh ->
  exists self,
    add_all fresh items = Ok self /\
    Forall (fun r => 0 <= r <= 32 - prec + 1) (registers self).
Proof.
  intros Hprec Hinit. pose proof (estimator_init_wf _ _ Hinit) as Hwf.
  rewrite init_ok in Hinit by lia. injection Hinit as <-.
  apply (add_all_bounded _ items Hwf); simpl; [lia|].
  apply Forall_replicate. lia.
Qed.

(** [HyperLogLog(p=4)] and the item "item-0": hash 1430168242, bucket 2,
    remaining bits 89385515, rank 1. *)
Lemma add_semantics_witness :
  exists old self1,
    registers (fresh_state 4) !! Z.to_nat 2 = Some old /\
    add (fresh_state 4) (VStr "item-0") = Ok self1 /\
    registers self1 !! Z.to_nat 2 = Some (Z.max old 1).
Proof.
  destruct (add_semantics (fresh_state 4) (VStr "item-0")) as
    (_ & _ & _ & _ & _ & _ & old & self1 & Hold & Hadd & Hnew & _).
  - exists (VInt 4), (fresh_state 4), []. split; reflexivity.
  - exists old, self1. split; [exact Hold|]. split; [exact Hadd|exact Hnew].
Defined.

Lemma registers_bounded_witness :
  exists self,
    add_all (fresh_state 4) [VStr "item-0"; VNone; VStr "item-0"] = Ok self /\
    Forall (fun r => 0 <= r <= 32 - 4 + 1) (registers self).
Proof.
  apply (registers_bounded 4 (fresh_state 4)).
  - lia.
  - reflexivity.
Defined.

End HLLProps.

(** ** HyperLogLog: the estimate *)

Module CountProps.
Import HLL HLLProps.

Lemma py_sum_from (f : Z -> R) (regs : list Z) (acc : R) :
  foldl Rplus acc (f <$> regs)
  = (acc + foldr (fun r s => f r + s) 0 regs)%R.
Proof.
  revert acc. induction regs as [|r regs IH]; intros acc; simpl.
  - lra.
  - rewrite IH. lra.
Qed.

Lemma py_sum_spec_Z (regs : list Z) :
  py_sum ((fun r => powerRZ 2 (- r)) <$> regs) = spec_Z regs.
Proof. unfold py_sum, spec_Z. rewrite py_sum_from. lra. Qed.

Lemma pow2_neg_pos (r : Z) : (0 < powerRZ 2 (- r))%R.
Proof. apply powerRZ_lt. lra. Qed.

Lemma spec_Z_nonneg (regs : list Z) : (0 <= spec_Z regs)%R.
Proof.
  induction regs as [|r regs IH]; simpl; [lra|].
  pose proof (pow2_neg_pos r). lra.
Qed.

Lemma spec_Z_pos (regs : list Z) : regs ≠ [] -> (0 < spec_Z regs)%R.
Proof.
  destruct regs as [|r regs]; [done|]. intros _. simpl.
  pose proof (pow2_neg_pos r). pose proof (spec_Z_nonneg regs). lra.
Qed.

Lemma spec_V_le_length (regs : list Z) :
  0 <= spec_V regs <= Z.of_nat (length regs).
Proof.
  unfold spec_V. pose proof (length_filter (fun r => r = 0) regs). lia.
Qed.

Lemma py_div_ok (a b : R) : b ≠ 0%R -> py_div a b = Ok (a / b)%R.
Proof. intros Hb. unfold py_div. by destruct (Req_dec_T b 0). Qed.

Lemma math_log_ok (x : R) : (0 < x)%R -> math_log x = Ok (ln x).
Proof. intros Hx. unfold math_log. by destruct (Rlt_dec 0 x). Qed.

(** The estimate before the large-range step. *)
Lemma small_range_step (a : R) (mz : Z) (regs : list Z) (E : R) :
  0 < mz -> E = spec_raw a mz regs ->
  (if 0 <? spec_V regs then
     q ← py_div (IZR mz) (IZR (spec_V regs));
     l ← math_log q;
     let E_star := (IZR mz * l)%R in
     if Rle_dec E (5 * IZR mz / 2) then Ok E_star else Ok E
   else Ok E)
  = Ok (spec_small_range a mz regs).
Proof.
  intros Hm ->. unfold spec_small_range.
  destruct (Z.ltb_spec 0 (spec_V regs)) as [HV|HV].
  - rewrite decide_True by done.
    assert (0 < IZR mz)%R by (by apply IZR_lt).
    assert (0 < IZR (spec_V regs))%R by (by apply IZR_lt).
    unfold py_div. destruct (Req_dec_T (IZR (spec_V regs)) 0); [lra|].
    cbn [mbind result_bind]. unfold math_log.
    destruct (Rlt_dec 0 (IZR mz / IZR (spec_V regs))) as [|Hq];
      [|destruct Hq; by apply Rdiv_lt_0_compat].
    cbn [mbind result_bind].
    destruct (Rle_dec _ (5 * IZR mz / 2)), (Rle_dec _ (5 / 2 * IZR mz));
      (done || lra).
  - by rewrite decide_False by lia.
Qed.

Lemma count_unfold (self : HyperLogLog) :
  registers self ≠ [] -> 0 < m self ->
  count self =
    let E := spec_small_range (alpha self) (m self) (registers self) in
    if Rlt_dec (2 ^ 32 / 30) E then
      if Rlt_dec 0 (1 - E / 2 ^ 32) then Ok (- 2 ^ 32 * ln (1 - E / 2 ^ 32))%R
      else Error ValueError
    else Ok E.
Proof.
  intros Hregs Hm. unfold count. rewrite py_sum_spec_Z.
  pose proof (spec_Z_pos _ Hregs) as HZ.
  rewrite (py_div_ok _ (spec_Z (registers self))) by lra.
  cbn [mbind result_bind]. fold (spec_V (registers self)).
  rewrite (small_range_step (alpha self)) by (done || (unfold spec_raw; lra)).
  cbn [mbind result_bind]. cbv zeta.
  set (E := spec_small_range _ _ _).
  destruct (Rlt_dec (1 / 30 * 2 ^ 32) E), (Rlt_dec (2 ^ 32 / 30) E); try lra.
  - unfold math_log. by destruct (Rlt_dec 0 (1 - E / 2 ^ 32)).
  - done.
Qed.

Lemma get_alpha_bounds (mz : Z) : 0 < mz -> (0 < _get_alpha mz <= 1)%R.
Proof.
  intros Hm. unfold _get_alpha.
  destruct (mz =? 16); [lra|]. destruct (mz =? 32); [lra|].
  destruct (mz =? 64); [lra|].
  assert (Hmr : (0 < IZR mz)%R) by (by apply IZR_lt).
  assert (Hq : (0 < 1079 / 1000 / IZR mz)%R) by (apply Rdiv_lt_0_compat; lra).
  set (d := (1 + 1079 / 1000 / IZR mz)%R) in *.
  assert (Hd : (1 < d)%R) by (unfold d; lra).
  split.
  - apply Rdiv_lt_0_compat; lra.
  - apply (Rmult_le_reg_r d); [lra|].
    unfold Rdiv. rewrite Rmult_assoc, Rinv_l by lra. lra.
Qed.

Lemma spec_V_replicate (n : nat) : spec_V (replicate n 0) = Z.of_nat n.
Proof.
  unfold spec_V. f_equal.
  induction n as [|n IH]; [done|]. cbn [replicate].
  rewrite filter_cons_True by done. cbn [length]. by rewrite IH.
Qed.

Lemma spec_Z_replicate (n : nat) : spec_Z (replicate n 0) = INR n.
Proof.
  induction n as [|n IH]; [done|].
  cbn [replicate spec_Z foldr]. fold (spec_Z (replicate n 0)).
  rewrite IH, S_INR. change (powerRZ 2 (- 0)) with 1%R. lra.
Qed.

Lemma fresh_state_count (prec : Z) :
  0 <= prec ->
  count {| p := prec; m := 2 ^ prec;
           registers := replicate (Z.to_nat (2 ^ prec)) 0;
           alpha := _get_alpha (2 ^ prec) |} = Ok 0%R.
Proof.
  intros Hp. assert (Hm : 0 < 2 ^ prec) by (apply Z.pow_pos_nonneg; lia).
  assert (Hmr : (0 < IZR (2 ^ prec))%R) by (by apply IZR_lt).
  rewrite count_unfold; cbn [alpha m registers].
  - cbv zeta. assert (Hsmall : spec_small_range (_get_alpha (2 ^ prec)) (2 ^ prec)
                       (replicate (Z.to_nat (2 ^ prec)) 0) = 0%R).
    { unfold spec_small_range, spec_raw.
      rewrite spec_V_replicate, spec_Z_replicate, INR_IZR_INZ, Z2Nat.id by lia.
      rewrite decide_True by done.
      pose proof (get_alpha_bounds _ Hm) as [Ha0 Ha1].
      replace (_get_alpha (2 ^ prec) * (IZR (2 ^ prec) * IZR (2 ^ prec))
               / IZR (2 ^ prec))%R
        with (_get_alpha (2 ^ prec) * IZR (2 ^ prec))%R by (field; lra).
      destruct (Rle_dec _ _) as [|Hgt].
      2:{ destruct Hgt. apply Rle_trans with (1 * IZR (2 ^ prec))%R;
            [apply Rmult_le_compat_r; lra|lra]. }
      replace (IZR (2 ^ prec) / IZR (2 ^ prec))%R with 1%R by (field; lra).
      rewrite ln_1. lra. }
    rewrite Hsmall.
    destruct (Rlt_dec (2 ^ 32 / 30) 0) as [Hlt|]; [|done].
    exfalso. assert (0 < 2 ^ 32)%R by (apply pow_lt; lra). lra.
  - intros Hnil%(f_equal length). rewrite length_replicate in Hnil.
    simpl in Hnil. lia.
  - done.
Qed.


Lemma rho_le_max_rank (prec x : Z) :
  0 <= prec -> 0 <= x < 2 ^ 32 ->
  _rho prec (x / 2 ^ prec) <= Z.max 0 (33 - prec).
Proof.
  intros Hp Hx. destruct (Z.le_gt_cases prec 32) as [Hle|Hgt].
  - pose proof (rho_bounded prec x ltac:(lia) Hx). lia.
  - assert (Hpow : 2 ^ 32 <= 2 ^ prec) by (apply Z.pow_le_mono_r; lia).
    rewrite Z.div_small by lia. rewrite rho_zero. lia.
Qed.

Lemma add_all_in_range (self self1 : HyperLogLog) (items : list value) :
  wf self ->
  Forall (fun r => 0 <= r <= Z.max 0 (33 - p self)) (registers self) ->
  add_all self items = Ok self1 ->
  Forall (fun r => 0 <= r <= Z.max 0 (33 - p self)) (registers self1).
Proof.
  revert self. induction items as [|item items IH]; intros self Hwf Hb Hall.
  - by injection Hall as <-.
  - unfold add_all in *. cbn [for_each] in Hall.
    destruct (add_spec self item Hwf) as (old & Hold & Hadd).
    pose proof (add_wf _ _ _ Hwf Hadd) as Hwf1.
    rewrite Hadd in Hall. cbn [mbind result_bind] in Hall.
    apply (IH _ Hwf1); [|exact Hall]. cbn [registers set_registers p].
    apply Forall_insert; [done|].
    pose proof (proj1 (Forall_lookup _ _) Hb _ _ Hold) as Hold_b.
    simpl in Hold_b.
    pose proof (rho_le_max_rank (p self) (mmh3_hash (str item))
                  (wf_p _ Hwf) (mmh3_hash_range _)).
    lia.
Qed.

Lemma reachable_in_range (self : HyperLogLog) :
  reachable self ->
  Forall (fun r => 0 <= r <= Z.max 0 (33 - p self)) (registers self).
Proof.
  intros (prec & fresh & items & Hinit & Hadds).
  pose proof (estimator_init_wf _ _ Hinit) as Hwf.
  destruct (init_inv _ _ Hinit) as (n & _ & _ & _ & _ & Hregs & _).
  destruct (estimator_add_all_total fresh items Hwf) as (regs & Heq & _).
  assert (Hp : p self = p fresh)
    by (rewrite Heq in Hadds; by injection Hadds as <-).
  rewrite Hp. apply (add_all_in_range fresh self items); [done| |done].
  rewrite Hregs. apply Forall_replicate. lia.
Qed.

Lemma pow2_neg_antitone (a b : Z) :
  a <= b -> (powerRZ 2 (- b) <= powerRZ 2 (- a))%R.
Proof.
  intros Hab. replace (- a) with (- b + Z.of_nat (Z.to_nat (b - a))) by lia.
  rewrite powerRZ_add by lra. rewrite <- pow_powerRZ.
  pose proof (pow2_neg_pos b).
  assert (1 <= 2 ^ Z.to_nat (b - a))%R by (apply pow_R1_Rle; lra).
  rewrite <- (Rmult_1_r (powerRZ 2 (- b))) at 1.
  apply Rmult_le_compat_l; lra.
Qed.

Lemma spec_Z_lower_bound (regs : list Z) (bound : Z) :
  Forall (fun r => r <= bound) regs ->
  (INR (length regs) * powerRZ 2 (- bound) <= spec_Z regs)%R.
Proof.
  induction 1 as [|r regs Hr _ IH]; cbn [length spec_Z foldr].
  - simpl. lra.
  - fold (spec_Z regs). rewrite S_INR.
    pose proof (pow2_neg_antitone r bound Hr). lra.
Qed.

(** C9. No division by zero in [count]: an estimator that was constructed
    and fed by [add] has [m >= 1] registers, each between 0 and the largest
    rank [max 0 (33 - p)], which is at most 33; so the sum [Z] of [2^(-r)]
    over the registers is at least [m * 2^(-33)], hence strictly positive (no
    term is small enough to underflow), the division [alpha * m * m / Z]
    yields its quotient, and [count] does not raise [ZeroDivisionError]. *)
Theorem harmonic_sum_positive (self : HyperLogLog) :
  reachable self ->
  let Z_sum := py_sum ((fun r => powerRZ 2 (- r)) <$> registers self) in
  let max_rank := Z.max 0 (33 - p self) in
  m self = Z.of_nat (length (registers self)) /\ 1 <= m self /\
  Forall (fun r => 0 <= r <= max_rank) (registers self) /\
  max_rank <= 33 /\
  (IZR (m self) * powerRZ 2 (- 33) <= Z_sum)%R /\
  (0 < Z_sum)%R /\
  py_div (alpha self * IZR (m self) * IZR (m self)) Z_sum
    = Ok (alpha self * IZR (m self) * IZR (m self) / Z_sum)%R /\
  count self ≠ Error ZeroDivisionError.
Proof.
  intros Hreach Z_sum max_rank.
  pose proof (estimator_reachable_wf _ Hreach) as [Hp Hm Hlen].
  pose proof (reachable_in_range _ Hreach) as Hrange. fold max_rank in Hrange.
  assert (Hm1 : 1 <= m self)
    by (rewrite Hm; pose proof (Z.pow_pos_nonneg 2 (p self)); lia).
  assert (Hmax : max_rank <= 33) by (unfold max_rank; lia).
  assert (Hlow : (IZR (m self) * powerRZ 2 (- 33) <= Z_sum)%R).
  { unfold Z_sum. rewrite py_sum_spec_Z, <- Hlen, <- INR_IZR_INZ.
    apply (spec_Z_lower_bound _ 33). eapply Forall_impl; [exact Hrange|].
    intros r Hr. simpl in Hr. lia. }
  assert (HZ : (0 < Z_sum)%R).
  { eapply Rlt_le_trans; [|exact Hlow].
    apply Rmult_lt_0_compat; [apply IZR_lt; lia|apply (pow2_neg_pos 33)]. }
  split; [done|]. split; [done|]. split; [done|]. split; [done|].
  split; [done|]. split; [done|]. split; [apply py_div_ok; lra|].
  unfold count. fold Z_sum. rewrite (py_div_ok _ Z_sum) by lra.
  cbn [mbind result_bind]. fold (spec_V (registers self)).
  destruct (Z.ltb_spec 0 (spec_V (registers self))) as [HV|HV].
  - rewrite py_div_ok
      by (apply Rgt_not_eq; by apply (IZR_lt 0)).
    cbn [mbind result_bind]. unfold math_log.
    repeat (match goal with
            | |- context [Rlt_dec ?a ?b] => destruct (Rlt_dec a b)
            | |- context [Rle_dec ?a ?b] => destruct (Rle_dec a b)
            end; cbn [mbind result_bind]); done.
  - cbn [mbind result_bind]. unfold math_log.
    repeat (match goal with
            | |- context [Rlt_dec ?a ?b] => destruct (Rlt_dec a b)
            end; cbn [mbind result_bind]); done.
Qed.

(** C7. A freshly constructed estimator (every register 0) estimates
    exactly 0: [V = m], the small-range step yields [m * ln (m / m) = 0], and
    the large-range step is not taken. *)
Theorem count_fresh (prec : value) (fresh : HyperLogLog) :
  init prec = Ok fresh -> count fresh = Ok 0%R.
Proof.
  intros Hinit. destruct (init_inv _ _ Hinit) as (n & -> & Hn & _).
  rewrite init_ok in Hinit by done. injection Hinit as <-.
  by apply fresh_state_count.
Qed.

(** C8. Idempotence: once an item has been added, adding it again any number
    of times succeeds and leaves the estimator, hence its registers and the
    value of [count], as they were after the first [add]. *)
Theorem add_idempotent (self : HyperLogLog) (item : value) :
  reachable self ->
  exists self1,
    add self item = Ok self1 /\
    forall n : nat,
      exists selfn,
        add_repeat n self1 item = Ok selfn /\
        registers selfn = registers self1 /\
        count selfn = count self1.
Proof.
  intros Hwf%estimator_reachable_wf.
  destruct (add_spec self item Hwf) as (old & _ & Hadd).
  eexists. split; [exact Hadd|]. intros n. eexists.
  split; [by apply (add_repeat_fixed self)|]. done.
Qed.

Lemma saturated_state :
  add_all (fresh_state 2) saturating_items
  = Ok (set_registers (fresh_state 2) [31; 31; 31; 31]).
Proof. vm_compute. reflexivity. Qed.



(** [HyperLogLog(p=2)] after four items with hashes 0, 1, 2 and 3: every
    register is at the largest rank, 31. *)
Lemma harmonic_sum_positive_witness :
  let self := set_registers (fresh_state 2) [31; 31; 31; 31] in
  let Z_sum := py_sum ((fun r => powerRZ 2 (- r)) <$> registers self) in
  Forall (fun r => 0 <= r <= 31) (registers self) /\
  (IZR (m self) * powerRZ 2 (- 33) <= Z_sum)%R /\
  (0 < Z_sum)%R /\
  count self ≠ Error ZeroDivisionError.
Proof.
  destruct (harmonic_sum_positive
              (set_registers (fresh_state 2) [31; 31; 31; 31]))
    as (_ & _ & Hrange & _ & Hlow & Hpos & _ & Hcount).
  - exists (VInt 2), (fresh_state 2), saturating_items.
    split; [reflexivity|exact saturated_state].
  - split; [exact Hrange|]. split; [exact Hlow|]. split; [exact Hpos|exact Hcount].
Defined.

Lemma count_fresh_witness : count (fresh_state 4) = Ok 0%R.
Proof. apply (count_fresh (VInt 4) (fresh_state 4)). reflexivity. Defined.

Lemma fresh_reachable (prec : Z) : 0 <= prec -> reachable (fresh_state prec).
Proof.
  intros Hp. exists (VInt prec), (fresh_state prec), [].
  split; [by apply init_ok|done].
Qed.

Lemma add_idempotent_witness :
  exists self1,
    add (fresh_state 4) (VStr "item-0") = Ok self1 /\
    forall n : nat,
      exists selfn,
        add_repeat n self1 (VStr "item-0") = Ok selfn /\
        registers selfn = registers self1 /\
        count selfn = count self1.
Proof.
  apply (add_idempotent (fresh_state 4) (VStr "item-0")).
  exists (VInt 4), (fresh_state 4), []. split; reflexivity.
Defined.

End CountProps.


(** ** Both structures: [None] items and construction *)

Module Policy.

(** C3 fails as stated: on [HyperLogLog(p=4)], [add(None)] hashes the text
    "None" (hash 3069107721: bucket 9, rank 6) and raises register 9 from 0
    to 6, so the state changes. *)
Lemma estimator_add_none_changes_state :
  exists self1,
    HLL.init (VInt 4) = Ok (HLL.fresh_state 4) /\
    HLL.add (HLL.fresh_state 4) VNone = Ok self1 /\
    HLL.registers self1 = <[9%nat := 6]> (HLL.registers (HLL.fresh_state 4)) /\
    self1 ≠ HLL.fresh_state 4.
Proof.
  exists (HLL.set_registers (HLL.fresh_state 4)
            (<[9%nat := 6]> (HLL.registers (HLL.fresh_state 4)))).
  split; [reflexivity|]. split; [vm_compute; reflexivity|].
  split; [reflexivity|].
  intros H%(f_equal HLL.registers). vm_compute in H. discriminate.
Qed.

(** C3, amended. [None] items: on the Bloom filter, [add(None)] returns
    without changing the filter and [check(None)] returns [False], whatever
    the filter holds; the estimator has no case for [None]: [add(None)] does
    what [add("None")] does, it hashes the text of the item and updates a
    register. None of the three calls raises. *)
Theorem null_item_policy (md5_int sha256_int : list byte -> Z)
    (filter : Bloom.BloomFilter) (estimator : HLL.HyperLogLog) :
  HLL.reachable estimator ->
  Bloom.add md5_int sha256_int filter VNone = Ok filter /\
  Bloom.check md5_int sha256_int filter VNone = Ok false /\
  exists estimator1,
    HLL.add estimator VNone = Ok estimator1 /\
    HLL.add estimator (VStr "None") = Ok estimator1.
Proof.
  intros Hwf%HLLProps.estimator_reachable_wf.
  split; [reflexivity|]. split; [reflexivity|].
  destruct (HLLProps.add_spec estimator VNone Hwf) as (old & _ & Hadd).
  eexists. split; [exact Hadd|exact Hadd].
Qed.

Lemma null_item_policy_witness :
  Bloom.add Bloom.md5_table Bloom.sha256_table Bloom.main_filter VNone
    = Ok Bloom.main_filter /\
  Bloom.check Bloom.md5_table Bloom.sha256_table Bloom.main_filter VNone
    = Ok false /\
  exists estimator1,
    HLL.add (HLL.fresh_state 4) VNone = Ok estimator1 /\
    HLL.add (HLL.fresh_state 4) (VStr "None") = Ok estimator1.
Proof.
  apply (null_item_policy Bloom.md5_table Bloom.sha256_table Bloom.main_filter
           (HLL.fresh_state 4)).
  exists (VInt 4), (HLL.fresh_state 4), []. split; reflexivity.
Defined.

(** C4 fails as stated: [HyperLogLog(p=0)] is constructed, with one
    register, although the precision is not positive. *)
Lemma estimator_accepts_precision_zero :
  HLL.init (VInt 0)
  = Ok {| HLL.p := 0; HLL.m := 1; HLL.registers := [0];
          HLL.alpha := HLL._get_alpha 1 |}.
Proof. reflexivity. Qed.

(** C4, amended. Construction: [BloomFilter(size, num_hashes)] raises
    [ValueError] and yields no filter when [size] or [num_hashes] is not a
    positive [int]; [HyperLogLog(p)] raises [ValueError] for a negative [int]
    and [TypeError] for a [p] that is not an [int], and yields no estimator.
    With positive [int] arguments, and for the estimator also with [p = 0],
    construction succeeds with an array of [size] zero bits, respectively of
    [2^p] zero registers. *)
Theorem construction_validation :
  (forall size num_hashes : value,
     (forall n, size = VInt n -> n <= 0) \/
     (forall n, num_hashes = VInt n -> n <= 0) ->
     Bloom.init size num_hashes = Error ValueError) /\
  (forall size num_hashes : Z,
     0 < size -> 0 < num_hashes ->
     Bloom.init (VInt size) (VInt num_hashes)
     = Ok {| Bloom.size := size; Bloom.num_hashes := num_hashes;
             Bloom.bit_array := replicate (Z.to_nat size) 0 |}) /\
  (forall prec : Z, prec < 0 -> HLL.init (VInt prec) = Error ValueError) /\
  (forall prec : value,
     (forall n, prec ≠ VInt n) -> HLL.init prec = Error TypeError) /\
  (forall prec : Z,
     0 <= prec ->
     HLL.init (VInt prec)
     = Ok {| HLL.p := prec; HLL.m := 2 ^ prec;
             HLL.registers := replicate (Z.to_nat (2 ^ prec)) 0;
             HLL.alpha := HLL._get_alpha (2 ^ prec) |}).
Proof.
  repeat split.
  - intros size num_hashes Hbad. unfold Bloom.init, Bloom.positive_int.
    destruct size as [|n|]; try done.
    destruct (Z.ltb_spec 0 n) as [Hn|]; [|done].
    destruct num_hashes as [|k|]; try done.
    destruct (Z.ltb_spec 0 k) as [Hk|]; [|done].
    destruct Hbad as [Hbad|Hbad];
      [specialize (Hbad n eq_refl)|specialize (Hbad k eq_refl)]; lia.
  - intros size num_hashes Hs Hk. unfold Bloom.init, Bloom.positive_int.
    destruct (Z.ltb_spec 0 size); [|lia].
    destruct (Z.ltb_spec 0 num_hashes); [done|lia].
  - intros prec Hneg. unfold HLL.init, py_lshift.
    destruct (Z.ltb_spec prec 0); [done|lia].
  - intros prec Hint. destruct prec as [|n|]; try done. by destruct (Hint n).
  - apply HLLProps.init_ok.
Qed.

Lemma construction_validation_witness :
  Bloom.init (VInt 0) (VInt 3) = Error ValueError /\
  Bloom.init (VInt 1000) (VStr "3") = Error ValueError /\
  Bloom.init (VInt 1000) (VInt 3) = Ok Bloom.main_filter /\
  HLL.init (VInt (-1)) = Error ValueError /\
  HLL.init VNone = Error TypeError /\
  HLL.init (VInt 4) = Ok (HLL.fresh_state 4).
Proof.
  destruct construction_validation as (Hbad & Hgood & Hneg & Htype & Hok).
  split; [apply Hbad; left; intros n [= <-]; lia|].
  split; [apply Hbad; right; intros n [=]|].
  split; [apply (Hgood 1000 3); lia|].
  split; [apply Hneg; lia|].
  split; [apply Htype; intros n [=]|].
  apply (Hok 4). lia.
Defined.

End Policy.

(** ** Bloom filter: what a run of adds leaves behind *)

Module BloomRuns.
Import Bloom BloomProps.

Lemma set_bits_app bits a b :
  set_bits (set_bits bits a) b = set_bits bits (a ++ b).
Proof. unfold set_bits. by rewrite foldl_app. Qed.

Lemma set_bits_ext bits a b :
  Forall (fun i => 0 <= i) a -> Forall (fun i => 0 <= i) b ->
  (forall i, i ∈ a <-> i ∈ b) ->
  set_bits bits a = set_bits bits b.
Proof.
  intros Ha Hb Hab. apply list_eq. intros j.
  destruct (decide (j < length bits)%nat) as [Hj|Hj].
  - rewrite !set_bits_lookup by done.
    destruct (decide (Z.of_nat j ∈ a)) as [Hin|Hnin].
    + by rewrite decide_True by (by apply Hab).
    + by rewrite decide_False by (by rewrite <- Hab).
  - rewrite !lookup_ge_None_2; [done|rewrite set_bits_length; lia..].
Qed.

Section Hashes.

Variable md5_int : list byte -> Z.
Variable sha256_int : list byte -> Z.

Local Abbreviation add := (Bloom.add md5_int sha256_int).
Local Abbreviation check := (Bloom.check md5_int sha256_int).
Local Abbreviation add_all := (Bloom.add_all md5_int sha256_int).
Local Abbreviation spec_probes := (Bloom.spec_probes md5_int sha256_int).
Local Abbreviation all_probes := (Passwords.all_probes md5_int sha256_int).
Local Abbreviation reachable := (Bloom.reachable md5_int sha256_int).

Lemma all_probes_nonneg self items :
  0 < size self -> Forall (fun i => 0 <= i) (all_probes self items).
Proof.
  intros Hsz. apply Forall_forall. intros i Hi.
  apply list_elem_of_bind in Hi as (x & Hi & _).
  destruct (is_none x); [by apply elem_of_nil in Hi|].
  pose proof (spec_probes_range md5_int sha256_int self x Hsz) as Hr.
  pose proof (proj1 (Forall_forall _ _) Hr i Hi) as Hri. simpl in Hri. lia.
Qed.

Lemma add_all_probes self items :
  wf self ->
  add_all self items
  = Ok (set_bit_array self (set_bits (bit_array self) (all_probes self items))).
Proof.
  intros Hwf. revert self Hwf.
  induction items as [|x items IH]; intros self Hwf.
  - by destruct self.
  - unfold Bloom.add_all in *. cbn [for_each].
    destruct (add_total md5_int sha256_int self x Hwf)
      as (bits1 & Hadd & Hwf1 & _).
    assert (Hbits1 : bits1 = set_bits (bit_array self)
                       (if is_none x then [] else spec_probes self x)).
    { destruct x as [|n|s].
      - rewrite add_none in Hadd. injection Hadd as Hadd.
        apply (f_equal bit_array) in Hadd. by symmetry.
      - rewrite add_some in Hadd by done. by injection Hadd as <-.
      - rewrite add_some in Hadd by done. by injection Hadd as <-. }
    rewrite Hadd. cbn [mbind result_bind]. rewrite (IH _ Hwf1).
    subst bits1. cbn [bit_array set_bit_array size num_hashes].
    by rewrite set_bits_app.
Qed.

Lemma probes_nonempty self x :
  0 < num_hashes self -> exists i rest, spec_probes self x = i :: rest.
Proof.
  intros Hk. unfold Bloom.spec_probes. rewrite seqZ_cons by done.
  cbn [fmap list_fmap]. eauto.
Qed.

(** X1. Empty filter: right after construction [check] returns [False]
    for every item, [None] included. *)
Theorem fresh_filter_rejects (sz k : value) (fresh : BloomFilter) (x : value) :
  Bloom.init sz k = Ok fresh -> check fresh x = Ok false.
Proof.
  intros Hinit. pose proof (filter_init_wf _ _ _ Hinit) as Hwf.
  destruct x as [|n|s]; [done|..].
  all: rewrite check_some by done; f_equal; apply bool_decide_eq_false_2.
  all: unfold Bloom.init in Hinit;
    destruct (positive_int sz) as [size0|]; [|done];
    destruct (positive_int k) as [k0|]; [|done];
    injection Hinit as <-; cbn [bit_array].
  all: match goal with |- ¬ all_set _ (Bloom.spec_probes _ _ ?f ?y) =>
         destruct (probes_nonempty f y) as (i & rest & ->);
         [by destruct Hwf|] end.
  all: intros [Hi _]%Forall_cons_1; apply lookup_replicate in Hi as [? _]; done.
Qed.

(** X2. Bits are only ever set: a run of [add] calls on a filter succeeds,
    keeps its size, its number of hashes and the length of the bit array,
    leaves every bit 0 or 1, keeps every bit that was 1, and a bit that is 0
    afterwards was 0 before. *)
Theorem bits_only_set (self : BloomFilter) (items : list value) :
  reachable self ->
  exists self1,
    add_all self items = Ok self1 /\
    size self1 = size self /\ num_hashes self1 = num_hashes self /\
    length (bit_array self1) = length (bit_array self) /\
    Forall (fun b => b = 0 \/ b = 1) (bit_array self1) /\
    (forall j : nat, bit_array self !! j = Some 1 ->
       bit_array self1 !! j = Some 1) /\
    (forall j : nat, bit_array self1 !! j = Some 0 ->
       bit_array self !! j = Some 0).
Proof.
  intros Hwf%filter_reachable_wf.
  destruct (filter_add_all_total md5_int sha256_int self items Hwf)
    as (bits & Hall & Hwf1 & Hmono).
  eexists. split; [exact Hall|]. cbn [size num_hashes bit_array set_bit_array].
  destruct Hwf as [Hsz Hk Hlen Hb], Hwf1 as [_ _ Hlen1 Hb1]. simpl in *.
  split; [done|]. split; [done|]. split; [lia|]. split; [done|].
  split; [done|]. intros j Hj.
  destruct (lookup_lt_is_Some_2 (bit_array self) j) as [b Hbj].
  { apply lookup_lt_Some in Hj. lia. }
  destruct (proj1 (Forall_lookup _ _) Hb _ _ Hbj) as [->| ->]; [done|].
  rewrite (Hmono _ Hbj) in Hj. done.
Qed.

(** X3. [add] is idempotent on the filter: adding an item that was just
    added succeeds and changes nothing. *)
Theorem filter_add_twice (self : BloomFilter) (x : value) :
  reachable self ->
  exists self1, add self x = Ok self1 /\ add self1 x = Ok self1.
Proof.
  intros Hwf%filter_reachable_wf.
  destruct (add_total md5_int sha256_int self x Hwf) as (bits1 & Hadd & Hwf1 & _).
  eexists. split; [exact Hadd|].
  assert (x = VNone \/ x ≠ VNone) as [->|Hx]
    by (destruct x; [by left|by right..]).
  { rewrite add_none in Hadd. rewrite add_none. by injection Hadd as <-. }
  rewrite add_some in Hadd by done. injection Hadd as <-.
  rewrite add_some by done. unfold set_bit_array. f_equal. f_equal.
  cbn [bit_array size num_hashes]. rewrite set_bits_app.
  pose proof (spec_probes_range md5_int sha256_int self x (wf_size _ Hwf)) as Hr.
  change (Bloom.spec_probes md5_int sha256_int _ x) with (spec_probes self x).
  assert (Hpos : Forall (fun i => 0 <= i) (spec_probes self x))
    by (eapply Forall_impl; [exact Hr|]; intros i Hi; simpl in Hi; lia).
  apply set_bits_ext; [by apply Forall_app|done|].
  intros i. rewrite elem_of_app. tauto.
Qed.

(** X4. Only the set of added items matters: two runs of [add] calls that
    add the same items, in any order and any number of times, leave the same
    filter. *)
Theorem filter_same_items (self : BloomFilter) (items1 items2 : list value) :
  reachable self ->
  (forall x, x ∈ items1 <-> x ∈ items2) ->
  add_all self items1 = add_all self items2.
Proof.
  intros Hwf%filter_reachable_wf Hsame. rewrite !add_all_probes by done.
  f_equal. f_equal.
  apply set_bits_ext; try (apply all_probes_nonneg; by destruct Hwf).
  intros i. unfold Passwords.all_probes. rewrite !list_elem_of_bind.
  split; intros (x & Hi & Hx); exists x; (split; [done|by apply Hsame]).
Qed.

Lemma added_items_found self items self1 x :
  wf self -> add_all self items = Ok self1 -> x ∈ items -> x ≠ VNone ->
  check self1 x = Ok true.
Proof.
  intros Hwf Hall Hx Hnone. rewrite add_all_probes in Hall by done.
  injection Hall as <-.
  destruct (filter_add_all_total md5_int sha256_int self items Hwf)
    as (bits & Hall' & Hwf1 & _).
  rewrite add_all_probes in Hall' by done. injection Hall' as <-.
  rewrite check_some by done. f_equal. apply bool_decide_eq_true_2.
  unfold all_set. cbn [bit_array set_bit_array]. apply Forall_forall.
  intros i Hi. change (Bloom.spec_probes _ _ _ x) with (spec_probes self x) in Hi.
  pose proof (spec_probes_range md5_int sha256_int self x (wf_size _ Hwf)) as Hr.
  pose proof (proj1 (Forall_forall _ _) Hr i Hi) as Hri. simpl in Hri.
  rewrite set_bits_lookup.
  - rewrite decide_True; [done|]. rewrite Z2Nat.id by lia.
    apply list_elem_of_bind. exists x. split; [|done].
    by replace (is_none x) with false by (by destruct x).
  - apply all_probes_nonneg. by destruct Hwf.
  - destruct Hwf as [_ _ Hlen _]. lia.
Qed.

End Hashes.

Lemma main_filter_reachable :
  Bloom.reachable md5_table sha256_table main_filter.
Proof. exists (VInt 1000), (VInt 3), main_filter, []. split; reflexivity. Qed.

Lemma fresh_filter_rejects_witness :
  Bloom.check md5_table sha256_table main_filter (VStr "password123") = Ok false.
Proof.
  apply (fresh_filter_rejects md5_table sha256_table (VInt 1000) (VInt 3)).
  reflexivity.
Defined.

Lemma bits_only_set_witness :
  exists self1,
    Bloom.add_all md5_table sha256_table main_filter
      [VStr "password123"; VStr "admin123"] = Ok self1 /\
    size self1 = 1000 /\ num_hashes self1 = 3 /\
    length (bit_array self1) = 1000%nat.
Proof.
  destruct (bits_only_set md5_table sha256_table main_filter
              [VStr "password123"; VStr "admin123"] main_filter_reachable)
    as (self1 & Hall & Hsz & Hk & Hlen & _).
  exists self1. split; [exact Hall|]. split; [exact Hsz|]. split; [exact Hk|].
  exact Hlen.
Defined.

Lemma filter_add_twice_witness :
  exists self1,
    Bloom.add md5_table sha256_table main_filter (VStr "admin123") = Ok self1 /\
    Bloom.add md5_table sha256_table self1 (VStr "admin123") = Ok self1.
Proof.
  apply (filter_add_twice md5_table sha256_table main_filter (VStr "admin123")).
  exact main_filter_reachable.
Defined.

Lemma filter_same_items_witness :
  Bloom.add_all md5_table sha256_table main_filter
    [VStr "password123"; VStr "admin123"; VStr "password123"]
  = Bloom.add_all md5_table sha256_table main_filter
    [VStr "admin123"; VStr "password123"].
Proof.
  apply (filter_same_items md5_table sha256_table main_filter).
  - exact main_filter_reachable.
  - intros x. rewrite !elem_of_cons, !elem_of_nil. tauto.
Defined.

End BloomRuns.

(** ** check_password_uniqueness *)

Module PasswordsProps.
Import Bloom BloomProps BloomRuns Passwords.

Lemma dict_get_set {V : Type} (d : list (value * V)) (k k' : value) (v : V) :
  dict_get (dict_set d k v) k' = if decide (k = k') then Some v else dict_get d k'.
Proof.
  induction d as [|[k0 v0] d IH]; cbn [dict_set dict_get].
  - by destruct (decide (k = k')).
  - destruct (decide (k0 = k)) as [->|Hk0]; cbn [dict_get].
    + by destruct (decide (k = k')).
    + destruct (decide (k0 = k')) as [->|]; [|exact IH].
      by rewrite decide_False by done.
Qed.

Lemma dict_keys_set {V : Type} (d : list (value * V)) (k : value) (v : V) :
  (dict_set d k v).*1 = if decide (k ∈ d.*1) then d.*1 else d.*1 ++ [k].
Proof.
  induction d as [|[k0 v0] d IH]; cbn [dict_set fmap list_fmap fst].
  - rewrite decide_False by apply not_elem_of_nil. done.
  - destruct (decide (k0 = k)) as [->|Hk0]; cbn [fmap list_fmap fst].
    + rewrite decide_True by (by left). done.
    + fold (fmap (M:=list) (@fst value V)). rewrite IH.
      destruct (decide (k ∈ d.*1)) as [Hin|Hnin].
      * rewrite decide_True by (by right). done.
      * rewrite decide_False; [done|].
        intros [->|?]%elem_of_cons; done.
Qed.

Lemma dict_keys_set_NoDup {V : Type} (d : list (value * V)) (k : value) (v : V) :
  NoDup d.*1 -> NoDup (dict_set d k v).*1.
Proof.
  intros Hd. rewrite dict_keys_set. destruct (decide (k ∈ d.*1)); [done|].
  apply NoDup_app. split; [done|]. split; [|apply NoDup_singleton].
  intros x Hx ->%list_elem_of_singleton. done.
Qed.

Lemma dict_keys_set_elem {V : Type} (d : list (value * V)) (k k' : value) (v : V) :
  k' ∈ (dict_set d k v).*1 <-> k' = k \/ k' ∈ d.*1.
Proof.
  rewrite dict_keys_set. destruct (decide (k ∈ d.*1)).
  - split; [by right|]. by intros [->|?].
  - rewrite elem_of_app, list_elem_of_singleton. tauto.
Qed.

Lemma password_key_not_none (password : value) : password_key password ≠ VNone.
Proof. by destruct password. Qed.

Section Hashes.

Variable md5_int : list byte -> Z.
Variable sha256_int : list byte -> Z.

Local Abbreviation check := (Bloom.check md5_int sha256_int).
Local Abbreviation add_all := (Bloom.add_all md5_int sha256_int).
Local Abbreviation reachable := (Bloom.reachable md5_int sha256_int).
Local Abbreviation check_one := (Passwords.check_one md5_int sha256_int).
Local Abbreviation check_password_uniqueness :=
  (Passwords.check_password_uniqueness md5_int sha256_int).
Local Abbreviation password_status :=
  (Passwords.password_status md5_int sha256_int).

Local Abbreviation stored := (Passwords.stored md5_int sha256_int).

Lemma stored_cons bf d p xs :
  stored bf d (p :: xs)
  = stored bf (dict_set d (password_key p) (password_status bf p)) xs.
Proof. reflexivity. Qed.

Lemma stored_app bf d xs ys :
  stored bf d (xs ++ ys) = stored bf (stored bf d xs) ys.
Proof. unfold Passwords.stored. by rewrite foldl_app. Qed.

Lemma check_one_ok bf d p :
  wf bf ->
  check_one bf d p = Ok (dict_set d (password_key p) (password_status bf p)).
Proof.
  intros Hwf. unfold Passwords.check_one, Passwords.password_status, password_key.
  destruct (is_none p) eqn:Hp; [done|].
  rewrite check_some by (done || by destruct p). cbn [mbind result_bind].
  by destruct (bool_decide _).
Qed.

Lemma loop_ok bf xs d :
  wf bf -> for_each (check_one bf) xs d = Ok (stored bf d xs).
Proof.
  intros Hwf. revert d. induction xs as [|p xs IH]; intros d; [done|].
  cbn [for_each]. rewrite check_one_ok by done. cbn [mbind result_bind].
  rewrite stored_cons. apply IH.
Qed.

Lemma password_status_check bf p b :
  wf bf -> p ≠ VNone -> check bf p = Ok b ->
  password_status bf p = if b then USED else UNIQUE.
Proof.
  intros Hwf Hp Hcheck. rewrite check_some in Hcheck by done.
  injection Hcheck as <-. unfold Passwords.password_status.
  by replace (is_none p) with false by (by destruct p).
Qed.

Lemma stored_other bf d xs k :
  k ∉ password_key <$> xs -> dict_get (stored bf d xs) k = dict_get d k.
Proof.
  revert d. induction xs as [|p xs IH]; intros d Hk; [done|].
  rewrite stored_cons. rewrite fmap_cons, not_elem_of_cons in Hk.
  destruct Hk as [Hp Hk]. rewrite IH by done. rewrite dict_get_set. by rewrite decide_False.
Qed.

Lemma stored_keys bf d xs :
  NoDup d.*1 ->
  NoDup (stored bf d xs).*1 /\
  forall k, k ∈ (stored bf d xs).*1 <-> k ∈ d.*1 \/ k ∈ password_key <$> xs.
Proof.
  revert d. induction xs as [|p xs IH]; intros d Hd.
  - split; [done|]. intros k. rewrite fmap_nil, elem_of_nil. tauto.
  - rewrite stored_cons.
    destruct (IH (dict_set d (password_key p) (password_status bf p)))
      as [Hnd Hel]; [by apply dict_keys_set_NoDup|].
    split; [done|]. intros k. rewrite Hel, dict_keys_set_elem, fmap_cons, elem_of_cons.
    tauto.
Qed.

(** X5. The dict of [check_password_uniqueness]: on a list or a tuple of
    passwords the call succeeds and prints nothing; the dict has one entry
    per distinct key, the keys being the passwords themselves with "None"
    standing for [None], so [None] is never a key. *)
Theorem uniqueness_keys (bf : BloomFilter) (xs : list value) :
  reachable bf ->
  exists d,
    check_password_uniqueness bf (ArgList xs) = Ok (d, []) /\
    check_password_uniqueness bf (ArgTuple xs) = Ok (d, []) /\
    NoDup d.*1 /\
    (forall k, k ∈ d.*1 <-> k ∈ password_key <$> xs) /\
    dict_get d VNone = None.
Proof.
  intros Hwf%filter_reachable_wf. exists (stored bf [] xs).
  unfold Passwords.check_password_uniqueness. rewrite loop_ok by done.
  split; [done|]. split; [done|].
  destruct (stored_keys bf [] xs) as [Hnd Hel]; [apply NoDup_nil_2|].
  split; [done|]. split.
  - intros k. rewrite Hel, elem_of_nil. tauto.
  - rewrite stored_other; [done|].
    intros (p & Hp & _)%list_elem_of_fmap. symmetry in Hp.
    by apply password_key_not_none in Hp.
Qed.

(** X6. The status of a key is that of its last password: if no later
    password has the key of [p], the dict maps this key to the invalid
    status when [p] is [None], and otherwise to "used" or "unique" as
    [check p] returns [True] or [False]. *)
Theorem uniqueness_last_wins (bf : BloomFilter) (pre post : list value) (p : value) :
  reachable bf ->
  password_key p ∉ password_key <$> post ->
  exists d st,
    check_password_uniqueness bf (ArgList (pre ++ p :: post)) = Ok (d, []) /\
    dict_get d (password_key p) = Some st /\
    (p = VNone -> st = INVALID) /\
    (p ≠ VNone ->
       exists present, check bf p = Ok present /\
         st = if present : bool then USED else UNIQUE).
Proof.
  intros Hwf%filter_reachable_wf Hlast.
  exists (stored bf [] (pre ++ p :: post)), (password_status bf p).
  unfold Passwords.check_password_uniqueness. rewrite loop_ok by done.
  split; [done|]. split.
  - rewrite stored_app, stored_cons, stored_other by done.
    rewrite dict_get_set. by rewrite decide_True.
  - split; [by intros ->|]. intros Hp.
    rewrite check_some by done. eexists. split; [done|].
    by apply password_status_check; [..|apply check_some].
Qed.

(** X7. "Unique" is never a false answer: when the filter was filled with
    [items], a key that the dict reports as unique is not one of [items]. *)
Theorem unique_means_never_added (sz k : value) (fresh bf : BloomFilter)
    (items : list value) (passwords : argument)
    (d : list (value * string)) (err : list string) (key : value) :
  Bloom.init sz k = Ok fresh ->
  add_all fresh items = Ok bf ->
  check_password_uniqueness bf passwords = Ok (d, err) ->
  dict_get d key = Some UNIQUE ->
  key ∉ items.
Proof.
  intros Hinit Hall Hcall Hget Hin.
  pose proof (filter_init_wf _ _ _ Hinit) as Hwf0.
  assert (Hwf : wf bf).
  { apply (filter_reachable_wf md5_int sha256_int).
    by exists sz, k, fresh, items. }
  assert (Hinv : forall xs d0,
            (forall k0, dict_get d0 k0 = Some UNIQUE ->
               k0 ≠ VNone /\ check bf k0 = Ok false) ->
            forall k0, dict_get (stored bf d0 xs) k0 = Some UNIQUE ->
               k0 ≠ VNone /\ check bf k0 = Ok false).
  { induction xs as [|p xs IH]; intros d0 Hd0; [done|].
    rewrite stored_cons. apply IH. intros k0. rewrite dict_get_set.
    destruct (decide (password_key p = k0)) as [<-|]; [|apply Hd0].
    unfold Passwords.password_status, password_key.
    destruct (is_none p) eqn:Hp; [done|].
    assert (p ≠ VNone) by (by destruct p).
    rewrite check_some by done.
    destruct (bool_decide _); [done|]. by intros _. }
  assert (Hkey : key ≠ VNone /\ check bf key = Ok false).
  { unfold Passwords.check_password_uniqueness in Hcall.
    destruct passwords as [xs|xs|v].
    - rewrite loop_ok in Hcall by done. injection Hcall as <- <-.
      by apply (Hinv xs []).
    - rewrite loop_ok in Hcall by done. injection Hcall as <- <-.
      by apply (Hinv xs []).
    - by injection Hcall as <- <-. }
  destruct Hkey as [Hnone Hcheck].
  rewrite (added_items_found md5_int sha256_int fresh items bf key) in Hcheck;
    done.
Qed.

(** X8. [None] and the password "None" share one key: whichever of the two
    comes last decides the status stored under "None". *)
Theorem none_key_collision (bf : BloomFilter) (pre : list value) :
  reachable bf ->
  (exists d,
     check_password_uniqueness bf (ArgList (pre ++ [VStr "None"; VNone]))
       = Ok (d, []) /\
     dict_get d (VStr "None") = Some INVALID) /\
  (exists d present,
     check_password_uniqueness bf (ArgList (pre ++ [VNone; VStr "None"]))
       = Ok (d, []) /\
     check bf (VStr "None") = Ok present /\
     dict_get d (VStr "None") = Some (if present : bool then USED else UNIQUE)).
Proof.
  intros Hwf%filter_reachable_wf.
  unfold Passwords.check_password_uniqueness. rewrite !loop_ok by done. split.
  - eexists. split; [done|]. rewrite stored_app, !stored_cons.
    change (stored bf ?d []) with d.
    by rewrite dict_get_set, decide_True.
  - eexists _, _. split; [done|]. split; [by apply check_some|].
    rewrite stored_app, !stored_cons. change (stored bf ?d []) with d.
    by rewrite dict_get_set, decide_True.
Qed.

End Hashes.

Lemma uniqueness_keys_witness :
  exists d,
    check_password_uniqueness md5_table sha256_table main_filter
      (ArgList [VStr "password123"; VNone; VStr "password123"]) = Ok (d, []) /\
    NoDup d.*1 /\
    dict_get d VNone = None.
Proof.
  destruct (uniqueness_keys md5_table sha256_table main_filter
              [VStr "password123"; VNone; VStr "password123"]
              main_filter_reachable) as (d & Hlist & _ & Hnd & _ & Hnone).
  exists d. split; [exact Hlist|]. split; [exact Hnd|exact Hnone].
Defined.

Lemma uniqueness_last_wins_witness :
  exists d st,
    check_password_uniqueness md5_table sha256_table main_filter
      (ArgList ([VStr "admin123"] ++ VStr "newpassword" :: [VNone]))
      = Ok (d, []) /\
    dict_get d (VStr "newpassword") = Some st /\
    (VStr "newpassword" = VNone -> st = INVALID) /\
    (VStr "newpassword" ≠ VNone ->
       exists present,
         Bloom.check md5_table sha256_table main_filter (VStr "newpassword")
           = Ok present /\
         st = if present : bool then USED else UNIQUE).
Proof.
  apply (uniqueness_last_wins md5_table sha256_table main_filter
           [VStr "admin123"] [VNone] (VStr "newpassword")).
  - exact main_filter_reachable.
  - intros H%list_elem_of_singleton. discriminate.
Defined.

Lemma unique_means_never_added_witness :
  VStr "newpassword" ∉ [VStr "password123"; VStr "admin123"].
Proof.
  eapply (unique_means_never_added md5_table sha256_table (VInt 1000) (VInt 3)
            main_filter _ [VStr "password123"; VStr "admin123"]
            (ArgList [VStr "newpassword"; VStr "admin123"])).
  - reflexivity.
  - reflexivity.
  - reflexivity.
  - reflexivity.
Defined.

Lemma none_key_collision_witness :
  (exists d,
     check_password_uniqueness md5_table sha256_table main_filter
       (ArgList ([] ++ [VStr "None"; VNone])) = Ok (d, []) /\
     dict_get d (VStr "None") = Some INVALID) /\
  (exists d present,
     check_password_uniqueness md5_table sha256_table main_filter
       (ArgList ([] ++ [VNone; VStr "None"])) = Ok (d, []) /\
     Bloom.check md5_table sha256_table main_filter (VStr "None") = Ok present /\
     dict_get d (VStr "None") = Some (if present : bool then USED else UNIQUE)).
Proof.
  apply (none_key_collision md5_table sha256_table main_filter []).
  exact main_filter_reachable.
Defined.

End PasswordsProps.

(** ** HyperLogLog: what a run of adds leaves behind *)

Module EstimatorRuns.
Import HLL HLLProps CountProps Report.

Lemma Ok_inj {A : Type} (a b : A) : Ok a = Ok b -> a = b.
Proof. by intros [= ->]. Qed.

Lemma add_registers self item :
  wf self ->
  exists old,
    registers self !! bucket (p self) item = Some old /\
    add self item
    = Ok (set_registers self
            (<[bucket (p self) item :=
                 Z.max old (item_rank (p self) item)]> (registers self))).
Proof. intros Hwf. exact (add_spec self item Hwf). Qed.

Lemma register_after_cons prec k v x items :
  register_after prec k v (x :: items)
  = register_after prec k
      (if decide (bucket prec x = k) then Z.max v (item_rank prec x) else v)
      items.
Proof. reflexivity. Qed.

Lemma register_after_ge prec k v items : v <= register_after prec k v items.
Proof.
  revert v. induction items as [|x items IH]; intros v; [done|].
  rewrite register_after_cons. etrans; [|apply IH].
  destruct (decide _); lia.
Qed.

Lemma register_after_upper prec k v items x :
  x ∈ items -> bucket prec x = k ->
  item_rank prec x <= register_after prec k v items.
Proof.
  revert v. induction items as [|y items IH]; intros v Hx Hk.
  - by apply elem_of_nil in Hx.
  - rewrite register_after_cons. apply elem_of_cons in Hx as [<-|Hx].
    + rewrite decide_True by done. etrans; [|apply register_after_ge]. lia.
    + by apply IH.
Qed.

Lemma register_after_attained prec k v items :
  register_after prec k v items = v \/
  exists x, x ∈ items /\ bucket prec x = k /\
    register_after prec k v items = item_rank prec x.
Proof.
  revert v. induction items as [|y items IH]; intros v; [by left|].
  rewrite register_after_cons.
  destruct (IH (if decide (bucket prec y = k)
                then Z.max v (item_rank prec y) else v)) as [Heq|(x & Hx & Hk & Heq)].
  - rewrite Heq. destruct (decide (bucket prec y = k)) as [Hk|]; [|by left].
    destruct (Z.max_spec v (item_rank prec y)) as [[_ ->]|[_ ->]]; [|by left].
    right. exists y. split; [by left|done].
  - right. exists x. split; [by right|done].
Qed.

Lemma register_after_same prec k v items1 items2 :
  (forall x, x ∈ items1 <-> x ∈ items2) ->
  register_after prec k v items1 = register_after prec k v items2.
Proof.
  intros Hsame.
  assert (Hle : forall a b, (forall x, x ∈ a -> x ∈ b) ->
            register_after prec k v a <= register_after prec k v b).
  { intros a b Hab.
    destruct (register_after_attained prec k v a) as [->|(x & Hx & Hk & ->)].
    - apply register_after_ge.
    - apply register_after_upper; [by apply Hab|done]. }
  apply Z.le_antisymm; apply Hle; intros x; apply Hsame.
Qed.

Lemma add_all_lookup self items self1 k v :
  wf self -> add_all self items = Ok self1 ->
  registers self !! k = Some v ->
  registers self1 !! k = Some (register_after (p self) k v items).
Proof.
  revert self v. induction items as [|x items IH]; intros self v Hwf Hall Hk.
  - injection Hall as <-. done.
  - unfold add_all in *. cbn [for_each] in Hall.
    destruct (add_registers self x Hwf) as (old & Hold & Hadd).
    pose proof (add_wf _ _ _ Hwf Hadd) as Hwf1.
    rewrite Hadd in Hall. cbn [mbind result_bind] in Hall.
    rewrite register_after_cons.
    change (p self) with (p (set_registers self
      (<[bucket (p self) x := Z.max old (item_rank (p self) x)]> (registers self)))).
    apply (IH _ _ Hwf1 Hall). cbn [registers set_registers p].
    destruct (decide (bucket (p self) x = k)) as [<-|Hne].
    + rewrite list_lookup_insert_eq by (by eapply lookup_lt_Some). congruence.
    + by rewrite list_lookup_insert_ne.
Qed.

Lemma reachable_alpha self : reachable self -> alpha self = _get_alpha (m self).
Proof.
  intros (prec & fresh & items & Hinit & Hadds).
  pose proof (estimator_init_wf _ _ Hinit) as Hwf.
  destruct (init_inv _ _ Hinit) as (n & _ & _ & _ & Hm & _ & Ha).
  destruct (estimator_add_all_total fresh items Hwf) as (regs & Heq & _).
  rewrite Heq in Hadds. injection Hadds as <-. simpl. congruence.
Qed.

Lemma add_all_registers_same (self : HyperLogLog) (items1 items2 : list value)
    (regs1 regs2 : list Z) :
  wf self ->
  (forall x, x ∈ items1 <-> x ∈ items2) ->
  add_all self items1 = Ok (set_registers self regs1) ->
  add_all self items2 = Ok (set_registers self regs2) ->
  length regs1 = length (registers self) ->
  length regs2 = length (registers self) ->
  regs1 = regs2.
Proof.
  intros Hwf Hsame H1 H2 Hlen1 Hlen2. apply list_eq. intros k.
  destruct (registers self !! k) as [v|] eqn:Hk.
  - pose proof (add_all_lookup _ _ _ k v Hwf H1 Hk) as L1.
    pose proof (add_all_lookup _ _ _ k v Hwf H2 Hk) as L2.
    cbn [registers set_registers] in L1, L2. rewrite L1, L2.
    f_equal. by apply register_after_same.
  - apply lookup_ge_None in Hk. rewrite !lookup_ge_None_2; [done|lia..].
Qed.

Lemma add_all_length (self : HyperLogLog) (items : list value) (regs : list Z) :
  wf self -> add_all self items = Ok (set_registers self regs) ->
  length regs = length (registers self).
Proof.
  intros Hwf Hall.
  destruct (estimator_add_all_total self items Hwf) as (regs' & Heq & Hwf1).
  rewrite Heq in Hall. apply Ok_inj in Hall.
  apply (f_equal registers) in Hall. cbn [registers set_registers] in Hall.
  subst regs'. destruct Hwf as [_ _ Hlen], Hwf1 as [_ _ Hlen1]. simpl in *. lia.
Qed.

(** X9. Only the set of added items matters: two runs of [add] calls with
    the same items, in any order and with any repetitions, leave the same
    estimator. *)
Theorem estimator_same_items (self : HyperLogLog) (items1 items2 : list value) :
  reachable self ->
  (forall x, x ∈ items1 <-> x ∈ items2) ->
  add_all self items1 = add_all self items2.
Proof.
  intros Hwf%estimator_reachable_wf Hsame.
  destruct (estimator_add_all_total self items1 Hwf) as (regs1 & H1 & _).
  destruct (estimator_add_all_total self items2 Hwf) as (regs2 & H2 & _).
  rewrite H1, H2. f_equal. f_equal.
  apply (add_all_registers_same self items1 items2); try done.
  - by apply (add_all_length self items1).
  - by apply (add_all_length self items2).
Qed.

(** X10. Registers never go down: a run of [add] calls succeeds, keeps
    [p], [m], [alpha] and the number of registers, and leaves every register
    at least as large as it was. *)
Theorem registers_never_lowered (self : HyperLogLog) (items : list value) :
  reachable self ->
  exists self1,
    add_all self items = Ok self1 /\
    p self1 = p self /\ m self1 = m self /\ alpha self1 = alpha self /\
    length (registers self1) = length (registers self) /\
    forall (k : nat) (v : Z), registers self !! k = Some v ->
      exists v1, registers self1 !! k = Some v1 /\ v <= v1.
Proof.
  intros Hwf%estimator_reachable_wf.
  destruct (estimator_add_all_total self items Hwf) as (regs & Hall & Hwf1).
  eexists. split; [exact Hall|]. cbn [p m alpha registers set_registers].
  split; [done|]. split; [done|]. split; [done|]. split.
  - destruct Hwf as [_ _ Hlen], Hwf1 as [_ _ Hlen1]. simpl in *. lia.
  - intros k v Hk. eexists. split.
    + exact (add_all_lookup _ _ _ k v Hwf Hall Hk).
    + apply register_after_ge.
Qed.

Lemma ln_nonneg (x : R) : (1 <= x)%R -> (0 <= ln x)%R.
Proof.
  intros [Hlt| <-]; [|rewrite ln_1; lra].
  rewrite <- ln_1. left. apply ln_increasing; lra.
Qed.

Lemma ln_negative (x : R) : (0 < x < 1)%R -> (ln x < 0)%R.
Proof. intros [H0 H1]. rewrite <- ln_1. by apply ln_increasing. Qed.

Lemma reachable_shape self :
  reachable self -> registers self ≠ [] /\ 0 < m self.
Proof.
  intros [Hp Hm Hlen]%estimator_reachable_wf.
  assert (0 < m self) by (rewrite Hm; apply Z.pow_pos_nonneg; lia).
  split; [|done]. intros Hnil. rewrite Hnil in Hlen. simpl in Hlen. lia.
Qed.

Lemma small_range_nonneg self :
  reachable self ->
  (0 <= spec_small_range (alpha self) (m self) (registers self))%R.
Proof.
  intros Hreach. pose proof (reachable_shape _ Hreach) as [Hregs Hm].
  pose proof (estimator_reachable_wf _ Hreach) as [_ _ Hlen].
  assert (Hmr : (0 < IZR (m self))%R) by (by apply IZR_lt).
  assert (Ha : (0 < alpha self)%R)
    by (rewrite reachable_alpha by done; by apply get_alpha_bounds).
  assert (Hraw : (0 < spec_raw (alpha self) (m self) (registers self))%R).
  { apply Rdiv_lt_0_compat; [|by apply spec_Z_pos].
    repeat apply Rmult_lt_0_compat; done. }
  unfold spec_small_range. cbv zeta.
  destruct (decide (0 < spec_V (registers self))) as [HV|]; [|lra].
  destruct (Rle_dec _ _); [|lra].
  apply Rmult_le_pos; [lra|]. apply ln_nonneg.
  assert (HVr : (0 < IZR (spec_V (registers self)))%R) by (by apply IZR_lt).
  apply (Rmult_le_reg_r (IZR (spec_V (registers self)))); [done|].
  unfold Rdiv. rewrite Rmult_assoc, Rinv_l by lra. rewrite Rmult_1_l, Rmult_1_r.
  apply IZR_le. pose proof (spec_V_le_length (registers self)). lia.
Qed.

(** X11. The estimate is never negative: whenever [count] returns on an
    estimator that was constructed and fed by [add], the value is at least
    0. *)
Theorem count_nonneg (self : HyperLogLog) (e : R) :
  reachable self -> count self = Ok e -> (0 <= e)%R.
Proof.
  intros Hreach Hcount. pose proof (reachable_shape _ Hreach) as [Hregs Hm].
  pose proof (small_range_nonneg _ Hreach) as HE.
  rewrite count_unfold in Hcount by done. cbv zeta in Hcount.
  set (E := spec_small_range _ _ _) in *.
  assert (Hpos : (0 < 2 ^ 32)%R) by (apply pow_lt; lra).
  destruct (Rlt_dec (2 ^ 32 / 30) E) as [Hbig|];
    [|by apply Ok_inj in Hcount as <-].
  destruct (Rlt_dec 0 (1 - E / 2 ^ 32)) as [Harg|]; [|done].
  apply Ok_inj in Hcount as <-.
  assert (HEpos : (0 < E / 2 ^ 32)%R) by (apply Rdiv_lt_0_compat; lra).
  pose proof (ln_negative (1 - E / 2 ^ 32) ltac:(lra)) as Hln.
  set (L := ln (1 - E / 2 ^ 32)) in *.
  replace (- 2 ^ 32 * L)%R with (2 ^ 32 * - L)%R by lra.
  apply Rmult_le_pos; [left; exact Hpos|lra].
Qed.

Lemma count_error_kind (self : HyperLogLog) (err : exn) :
  registers self ≠ [] -> 0 < m self ->
  count self = Error err -> err = ValueError.
Proof.
  intros Hregs Hm. rewrite count_unfold by done. cbv zeta.
  destruct (Rlt_dec _ _); [|done]. destruct (Rlt_dec _ _); [done|].
  by intros [= <-].
Qed.

(** X12. The only exception of [count]: on an estimator that was
    constructed and fed by [add] (its registers lie between 0 and 33, so no
    [2 ** -r] underflows and [Z] is positive), [count] raises [ValueError]
    exactly when the estimate that enters the large-range step is [2^32] or
    more, and it raises nothing else. *)
Theorem count_errors (self : HyperLogLog) :
  reachable self ->
  (count self = Error ValueError <->
   (2 ^ 32 <= spec_small_range (alpha self) (m self) (registers self))%R) /\
  (forall err, count self = Error err -> err = ValueError).
Proof.
  intros Hreach. destruct (reachable_shape _ Hreach) as [Hregs Hm].
  rewrite count_unfold by done. cbv zeta.
  set (E := spec_small_range _ _ _).
  assert (Hpos : (0 < 2 ^ 32)%R) by (apply pow_lt; lra).
  assert (Harg : (0 < 1 - E / 2 ^ 32 <-> E < 2 ^ 32)%R).
  { split; intros H.
    - apply (Rmult_lt_reg_r (/ 2 ^ 32)); [by apply Rinv_0_lt_compat|].
      rewrite Rinv_r by lra. unfold Rdiv in H. lra.
    - assert (E / 2 ^ 32 < 1)%R; [|lra].
      apply (Rmult_lt_reg_r (2 ^ 32)); [done|].
      unfold Rdiv. rewrite Rmult_assoc, Rinv_l by lra. lra. }
  destruct (Rlt_dec (2 ^ 32 / 30) E) as [Hbig|Hsmall].
  - destruct (Rlt_dec 0 (1 - E / 2 ^ 32)) as [H|H].
    + split; [|done]. split; [done|]. intros. apply Harg in H. lra.
    + split; [|by intros err [= <-]]. split; [|done]. intros _.
      destruct (Rle_dec (2 ^ 32) E) as [|Hn]; [done|].
      destruct H. apply Harg. lra.
  - split; [|done]. split; [done|]. intros. lra.
Qed.

(** X13. The bias constant: for every [m > 0], [_get_alpha] lies strictly
    between 1/3 and 3/4. *)
Theorem get_alpha_range (mz : Z) :
  0 < mz -> (1 / 3 < _get_alpha mz < 3 / 4)%R.
Proof.
  intros Hm. unfold _get_alpha.
  destruct (mz =? 16); [lra|]. destruct (mz =? 32); [lra|].
  destruct (mz =? 64); [lra|].
  assert (Hmr : (1 <= IZR mz)%R) by (apply IZR_le; lia).
  assert (Hq : (0 < 1079 / 1000 / IZR mz <= 1079 / 1000)%R).
  { split; [apply Rdiv_lt_0_compat; lra|].
    apply (Rmult_le_reg_r (IZR mz)); [lra|].
    unfold Rdiv at 1. rewrite Rmult_assoc, Rinv_l by lra. nra. }
  set (d := (1 + 1079 / 1000 / IZR mz)%R) in *.
  assert (Hd : (1 < d <= 2079 / 1000)%R) by (unfold d; lra).
  split.
  - apply (Rmult_lt_reg_r d); [lra|].
    unfold Rdiv at 2. rewrite Rmult_assoc, Rinv_l by lra. lra.
  - apply (Rmult_lt_reg_r d); [lra|].
    unfold Rdiv at 1. rewrite Rmult_assoc, Rinv_l by lra. lra.
Qed.

Lemma pow2_neg_mono (a b : Z) :
  a <= b -> (powerRZ 2 (- b) <= powerRZ 2 (- a))%R.
Proof.
  intros Hab. replace (- a) with (- b + Z.of_nat (Z.to_nat (b - a))) by lia.
  rewrite powerRZ_add by lra. rewrite <- pow_powerRZ.
  pose proof (pow2_neg_pos b). pose proof (pow_R1_Rle 2 (Z.to_nat (b - a))).
  assert (1 <= 2 ^ Z.to_nat (b - a))%R by (apply pow_R1_Rle; lra).
  rewrite <- (Rmult_1_r (powerRZ 2 (- b))) at 1.
  apply Rmult_le_compat_l; lra.
Qed.

Lemma spec_Z_mono (regs regs1 : list Z) :
  Forall2 Z.le regs regs1 -> (spec_Z regs1 <= spec_Z regs)%R.
Proof.
  induction 1 as [|r r1 regs regs1 Hr _ IH]; cbn [spec_Z foldr]; [lra|].
  fold (spec_Z regs) (spec_Z regs1). pose proof (pow2_neg_mono r r1 Hr). lra.
Qed.

Lemma spec_V_mono (regs regs1 : list Z) :
  Forall (fun r => 0 <= r) regs -> Forall2 Z.le regs regs1 ->
  spec_V regs1 <= spec_V regs.
Proof.
  intros Hpos H12. unfold spec_V. apply inj_le. revert Hpos.
  induction H12 as [|r r1 regs regs1 Hr _ IH]; intros Hpos; [done|].
  apply Forall_cons_1 in Hpos as [Hr0 Hpos]. specialize (IH Hpos).
  destruct (decide (r1 = 0)) as [->|Hr1].
  - assert (r = 0) as -> by lia. rewrite !filter_cons_True by done.
    cbn [length]. lia.
  - rewrite (filter_cons_False _ r1) by done.
    destruct (decide (r = 0)) as [->|].
    + rewrite filter_cons_True by done. cbn [length]. lia.
    + by rewrite filter_cons_False by done.
Qed.

Lemma reachable_nonneg self :
  reachable self -> Forall (fun r => 0 <= r) (registers self).
Proof.
  intros (prec & fresh & items & Hinit & Hadds).
  pose proof (estimator_init_wf _ _ Hinit) as Hwf.
  destruct (init_inv _ _ Hinit) as (n & _ & _ & _ & _ & Hregs & _).
  apply Forall_lookup. intros k r Hk.
  destruct (estimator_add_all_total fresh items Hwf) as (regs & Heq & Hwf1).
  destruct (registers fresh !! k) as [v|] eqn:Hv.
  - pose proof (add_all_lookup _ _ _ k v Hwf Hadds Hv) as Hk1.
    rewrite Hk in Hk1. injection Hk1 as ->.
    rewrite Hregs in Hv. apply lookup_replicate in Hv as [-> _].
    apply register_after_ge.
  - apply lookup_ge_None in Hv. apply lookup_lt_Some in Hk.
    rewrite Heq in Hadds. injection Hadds as <-.
    destruct Hwf as [_ _ Hlen], Hwf1 as [_ _ Hlen1]. simpl in *. lia.
Qed.

(** X14. More items never lower the raw estimate: after a run of [add]
    calls the sum [Z] of [2^(-r)] and the number [V] of registers at 0 are
    at most what they were, and the raw estimate [alpha * m^2 / Z] is at
    least what it was. *)
Theorem raw_estimate_monotone (self : HyperLogLog) (items : list value) :
  reachable self ->
  exists self1,
    add_all self items = Ok self1 /\
    (spec_Z (registers self1) <= spec_Z (registers self))%R /\
    spec_V (registers self1) <= spec_V (registers self) /\
    (spec_raw (alpha self) (m self) (registers self)
     <= spec_raw (alpha self1) (m self1) (registers self1))%R.
Proof.
  intros Hreach. pose proof (estimator_reachable_wf _ Hreach) as Hwf.
  pose proof (reachable_shape _ Hreach) as [Hregs Hm].
  destruct (estimator_add_all_total self items Hwf) as (regs & Hall & Hwf1).
  eexists. split; [exact Hall|]. cbn [registers set_registers alpha m].
  assert (Hlen : length (registers self) = length regs).
  { destruct Hwf as [_ _ Hlen], Hwf1 as [_ _ Hlen1]. simpl in *. lia. }
  assert (H12 : Forall2 Z.le (registers self) regs).
  { apply Forall2_same_length_lookup_2; [done|]. intros k v v1 Hv Hv1.
    pose proof (add_all_lookup _ _ _ k v Hwf Hall Hv) as Hk.
    cbn [registers set_registers] in Hk. rewrite Hv1 in Hk.
    injection Hk as ->. apply register_after_ge. }
  pose proof (spec_Z_mono _ _ H12) as HZ.
  split; [done|]. split; [by apply spec_V_mono; [apply reachable_nonneg|]|].
  assert (Hregs1 : regs ≠ []).
  { intros ->. destruct (registers self); [done|]. simpl in Hlen. lia. }
  pose proof (spec_Z_pos _ Hregs) as HZ0. pose proof (spec_Z_pos _ Hregs1) as HZ1.
  assert (Ha : (0 < alpha self)%R)
    by (rewrite reachable_alpha by done; by apply get_alpha_bounds).
  assert (Hmr : (0 < IZR (m self))%R) by (by apply IZR_lt).
  unfold spec_raw, Rdiv. apply Rmult_le_compat_l.
  - left. repeat apply Rmult_lt_0_compat; done.
  - by apply Rinv_le_contravar.
Qed.

Lemma estimator_same_items_witness :
  add_all (fresh_state 4) [VStr "item-0"; VNone; VStr "item-0"]
  = add_all (fresh_state 4) [VNone; VStr "item-0"].
Proof.
  apply (estimator_same_items (fresh_state 4)).
  - exists (VInt 4), (fresh_state 4), []. split; reflexivity.
  - intros x. rewrite !elem_of_cons, !elem_of_nil. tauto.
Defined.

Lemma registers_never_lowered_witness :
  exists self1,
    add_all (fresh_state 4) [VStr "item-0"; VNone] = Ok self1 /\
    p self1 = 4 /\ m self1 = 16 /\
    length (registers self1) = 16%nat.
Proof.
  destruct (registers_never_lowered (fresh_state 4) [VStr "item-0"; VNone])
    as (self1 & Hall & Hp & Hm & _ & Hlen & _).
  - exists (VInt 4), (fresh_state 4), []. split; reflexivity.
  - exists self1. split; [exact Hall|]. split; [exact Hp|].
    split; [exact Hm|exact Hlen].
Defined.

Lemma count_nonneg_witness : (0 <= 0)%R.
Proof.
  apply (count_nonneg (fresh_state 4) 0%R).
  - exists (VInt 4), (fresh_state 4), []. split; reflexivity.
  - apply fresh_state_count. lia.
Defined.

Lemma count_errors_witness :
  let self := set_registers (fresh_state 2) [31; 31; 31; 31] in
  (count self = Error ValueError <->
   (2 ^ 32 <= spec_small_range (alpha self) (m self) (registers self))%R) /\
  (forall err, count self = Error err -> err = ValueError).
Proof.
  apply (count_errors (set_registers (fresh_state 2) [31; 31; 31; 31])).
  exists (VInt 2), (fresh_state 2), saturating_items.
  split; [reflexivity|exact saturated_state].
Defined.

Lemma get_alpha_range_witness : (1 / 3 < _get_alpha 16384 < 3 / 4)%R.
Proof. apply (get_alpha_range 16384). lia. Defined.

Lemma raw_estimate_monotone_witness :
  exists self1,
    add_all (fresh_state 4) [VStr "item-0"] = Ok self1 /\
    (spec_Z (registers self1) <= spec_Z (registers (fresh_state 4)))%R /\
    spec_V (registers self1) <= spec_V (registers (fresh_state 4)) /\
    (spec_raw (alpha (fresh_state 4)) (m (fresh_state 4))
       (registers (fresh_state 4))
     <= spec_raw (alpha self1) (m self1) (registers self1))%R.
Proof.
  apply (raw_estimate_monotone (fresh_state 4) [VStr "item-0"]).
  exists (VInt 4), (fresh_state 4), []. split; reflexivity.
Defined.

End EstimatorRuns.

(** ** exact_count, hll_count and main *)

Module ReportProps.
Import HLL HLLProps CountProps Report EstimatorRuns.

Lemma remove_dups_length_le (l : list value) :
  (length (remove_dups l) <= length l)%nat.
Proof.
  induction l as [|x l IH]; [done|]. cbn [remove_dups].
  destruct (decide_rel _ x l); cbn [length]; lia.
Qed.

Lemma remove_dups_length_NoDup (l : list value) :
  length (remove_dups l) = length l <-> NoDup l.
Proof.
  induction l as [|x l IH]; [split; [constructor|done]|].
  cbn [remove_dups]. pose proof (remove_dups_length_le l).
  destruct (decide_rel _ x l) as [Hin|Hnin]; cbn [length].
  - split; [lia|]. intros [Hx _]%NoDup_cons. done.
  - rewrite NoDup_cons. split.
    + intros [= Hlen]. split; [done|by apply IH].
    + intros [_ Hnd]. f_equal. by apply IH.
Qed.

(** X15. [exact_count] counts the distinct items: the count is at most
    [len(ips)], at least 1 for a non-empty list, equal to [len(ips)] exactly
    when no item occurs twice, and the same for two lists with the same
    items; the time is the difference of the two clock readings. *)
Theorem exact_count_distinct (ips ips' : list value) (t0 t1 : R) :
  let count := (exact_count ips t0 t1).1 in
  0 <= count <= Z.of_nat (length ips) /\
  (ips ≠ [] -> 1 <= count) /\
  (count = Z.of_nat (length ips) <-> NoDup ips) /\
  ((forall x, x ∈ ips <-> x ∈ ips') -> (exact_count ips' t0 t1).1 = count) /\
  (exact_count ips t0 t1).2 = (t1 - t0)%R.
Proof.
  cbn [exact_count fst snd]. cbv zeta.
  pose proof (remove_dups_length_le ips).
  split; [lia|]. split; [|split; [|split; [|done]]].
  - destruct ips as [|x ips]; [done|]. intros _.
    assert (Hx : x ∈ remove_dups (x :: ips))
      by (apply elem_of_remove_dups; by left).
    destruct (remove_dups (x :: ips)); [by apply elem_of_nil in Hx|].
    cbn [length]. lia.
  - rewrite <- remove_dups_length_NoDup. lia.
  - intros Hsame. f_equal. apply Permutation_length.
    apply NoDup_Permutation; [apply NoDup_remove_dups..|].
    intros x. rewrite !elem_of_remove_dups. by rewrite Hsame.
Qed.

Lemma hll_count_unfold (ips : list value) (t0 t1 : R) :
  exists self,
    add_all (fresh_state 14) ips = Ok self /\ reachable self /\
    hll_count ips t0 t1 = (c ← count self; Ok (c, (t1 - t0)%R)).
Proof.
  pose proof (fresh_reachable 14 ltac:(lia)) as Hfresh.
  destruct (estimator_add_all_total _ ips (estimator_reachable_wf _ Hfresh))
    as (regs & Hall & _).
  eexists. split; [exact Hall|]. split.
  - exists (VInt 14), (fresh_state 14), ips. split; [by apply init_ok|done].
  - unfold hll_count. cbv zeta. rewrite init_ok by lia.
    cbn [mbind result_bind]. fold (fresh_state 14). rewrite Hall. done.
Qed.

(** X16. The estimate of [hll_count] depends on the set of items only:
    two lists with the same items, in any order and with any repetitions,
    give the same result. *)
Theorem hll_count_same_items (ips1 ips2 : list value) (t0 t1 : R) :
  (forall x, x ∈ ips1 <-> x ∈ ips2) ->
  hll_count ips1 t0 t1 = hll_count ips2 t0 t1.
Proof.
  intros Hsame.
  destruct (hll_count_unfold ips1 t0 t1) as (s1 & H1 & _ & ->).
  destruct (hll_count_unfold ips2 t0 t1) as (s2 & H2 & _ & ->).
  pose proof (estimator_reachable_wf _ (fresh_reachable 14 ltac:(lia))) as Hwf.
  destruct (estimator_add_all_total _ ips1 Hwf) as (regs1 & E1 & _).
  destruct (estimator_add_all_total _ ips2 Hwf) as (regs2 & E2 & _).
  assert (regs1 = regs2) as ->.
  { apply (add_all_registers_same (fresh_state 14) ips1 ips2); try done.
    - by apply (add_all_length _ ips1).
    - by apply (add_all_length _ ips2). }
  congruence.
Qed.

(** X17. Nothing to count: on the empty list [hll_count] returns the
    estimate 0. *)
Theorem hll_count_empty (t0 t1 : R) : hll_count [] t0 t1 = Ok (0%R, (t1 - t0)%R).
Proof.
  destruct (hll_count_unfold [] t0 t1) as (s & Hs & _ & ->).
  injection Hs as <-. unfold fresh_state.
  by rewrite fresh_state_count by lia.
Qed.

Lemma hashable_items_fmap (vs : list value) :
  hashable_items (Hashable <$> vs) = Ok vs.
Proof.
  induction vs as [|v vs IH]; [done|].
  cbn [fmap list_fmap hashable_items]. fold (fmap (M:=list) Hashable).
  by rewrite IH.
Qed.

Lemma hashable_items_inv (ips : list loaded) :
  (exists vs, ips = Hashable <$> vs /\ hashable_items ips = Ok vs) \/
  ((exists text, Unhashable text ∈ ips) /\ hashable_items ips = Error TypeError).
Proof.
  induction ips as [|[v|text] ips IH].
  - left. by exists [].
  - destruct IH as [(vs & -> & Hvs)|[(text & Hin) Herr]].
    + left. exists (v :: vs). split; [done|].
      cbn [hashable_items]. by rewrite Hvs.
    + right. split; [exists text; by right|].
      cbn [hashable_items]. by rewrite Herr.
  - right. split; [exists text; by left|done].
Qed.

Lemma hashable_items_unhashable (ips : list loaded) (text : string) :
  Unhashable text ∈ ips -> hashable_items ips = Error TypeError.
Proof.
  intros Hin. destruct (hashable_items_inv ips) as [(vs & -> & _)|[_ H]]; [|done].
  apply list_elem_of_fmap in Hin as (v & Hv & _). done.
Qed.

Lemma loaded_value_fmap (vs : list value) :
  loaded_value <$> (Hashable <$> vs) = vs.
Proof. rewrite <- list_fmap_compose. apply list_fmap_id. Qed.

(** X18. The report of [main]: without a list, or with an empty one, [main]
    returns without a report. With a non-empty list, an item that is not
    hashable makes [main] raise [TypeError] (from [set(ips)]); otherwise
    the exact count is at least 1, so the relative error is computed without
    dividing by zero: when [hll_count] returns an estimate [h], [main] reports
    [|exact - h| / exact * 100]. The only exceptions [main] can raise are this
    [TypeError] and the [ValueError] of [count]. *)
Theorem main_report (ips : list loaded) (t1 t2 t3 t4 : R) :
  ips ≠ [] ->
  main None t1 t2 t3 t4 = Ok None /\
  main (Some []) t1 t2 t3 t4 = Ok None /\
  ((exists text, Unhashable text ∈ ips) ->
     main (Some ips) t1 t2 t3 t4 = Error TypeError) /\
  (forall vs, ips = Hashable <$> vs ->
     let exact := Z.of_nat (length (remove_dups vs)) in
     1 <= exact /\
     forall h th, hll_count vs t3 t4 = Ok (h, th) ->
       main (Some ips) t1 t2 t3 t4
       = Ok (Some {| exact_unique_count := exact;
                     exact_time := (t2 - t1)%R;
                     hll_unique_count := h;
                     hll_time := th;
                     error_percent :=
                       (Rabs (IZR exact - h) / IZR exact * 100)%R |})) /\
  (forall err, main (Some ips) t1 t2 t3 t4 = Error err ->
     err = TypeError \/ err = ValueError).
Proof.
  intros Hips.
  assert (Hmain : main (Some ips) t1 t2 t3 t4
    = ('(exact, et) ← exact_count_loaded ips t1 t2;
       '(h, th) ← hll_count_loaded ips t3 t4;
       ratio ← py_div (Rabs (IZR exact - h)) (IZR exact);
       Ok (Some {| exact_unique_count := exact; exact_time := et;
                   hll_unique_count := h; hll_time := th;
                   error_percent := (ratio * 100)%R |})))
    by (by destruct ips).
  assert (Hgood : forall vs, ips = Hashable <$> vs ->
            1 <= Z.of_nat (length (remove_dups vs)) /\
            main (Some ips) t1 t2 t3 t4
            = ('(h, th) ← hll_count vs t3 t4;
               Ok (Some {| exact_unique_count := Z.of_nat (length (remove_dups vs));
                           exact_time := (t2 - t1)%R;
                           hll_unique_count := h; hll_time := th;
                           error_percent :=
                             (Rabs (IZR (Z.of_nat (length (remove_dups vs))) - h)
                              / IZR (Z.of_nat (length (remove_dups vs))) * 100)%R |}))).
  { intros vs Hvs.
    assert (Hexact : 1 <= Z.of_nat (length (remove_dups vs))).
    { destruct vs as [|x vs]; [by subst ips|].
      assert (Hx : x ∈ remove_dups (x :: vs))
        by (apply elem_of_remove_dups; by left).
      destruct (remove_dups (x :: vs)); [by apply elem_of_nil in Hx|].
      cbn [length]. lia. }
    split; [done|]. rewrite Hmain. unfold exact_count_loaded, hll_count_loaded.
    rewrite Hvs, hashable_items_fmap, loaded_value_fmap.
    cbn [mbind result_bind]. unfold exact_count. cbv zeta.
    destruct (hll_count vs t3 t4) as [[h th]|e]; [|done].
    cbn [mbind result_bind]. rewrite py_div_ok; [done|].
    apply not_0_IZR. lia. }
  split; [done|]. split; [done|]. split; [|split].
  - intros (text & Hin). rewrite Hmain. unfold exact_count_loaded.
    by rewrite (hashable_items_unhashable ips text).
  - intros vs Hvs exact. destruct (Hgood vs Hvs) as [Hexact Heq].
    split; [done|]. intros h th Hh. rewrite Heq, Hh. done.
  - intros err Herr.
    destruct (hashable_items_inv ips) as [(vs & Hvs & _)|[Hbad _]].
    + right. destruct (Hgood vs Hvs) as [_ Heq]. rewrite Heq in Herr.
      destruct (hll_count_unfold vs t3 t4) as (s & _ & Hs & Hc).
      rewrite Hc in Herr. destruct (count s) as [c|e] eqn:Hcount; [done|].
      cbn [mbind result_bind] in Herr. injection Herr as <-.
      destruct (reachable_shape _ Hs). by eapply count_error_kind.
    + left. destruct Hbad as (text & Hin).
      rewrite Hmain in Herr. unfold exact_count_loaded in Herr.
      rewrite (hashable_items_unhashable ips text Hin) in Herr.
      by injection Herr as <-.
Qed.

Lemma hll_count_same_items_witness :
  hll_count [VStr "10.0.0.1"; VStr "10.0.0.2"; VStr "10.0.0.1"] 0 1
  = hll_count [VStr "10.0.0.2"; VStr "10.0.0.1"] 0 1.
Proof.
  apply hll_count_same_items.
  intros x. rewrite !elem_of_cons, !elem_of_nil. tauto.
Defined.

(** A log whose second line has a JSON array as [remote_addr]. *)
Lemma main_report_witness :
  main (Some [Hashable (VStr "10.0.0.1"); Unhashable "['10.0.0.2']"]) 0 1 2 3
    = Error TypeError /\
  forall err,
    main (Some [Hashable (VStr "10.0.0.1"); Unhashable "['10.0.0.2']"]) 0 1 2 3
      = Error err ->
    err = TypeError \/ err = ValueError.
Proof.
  destruct (main_report
              [Hashable (VStr "10.0.0.1"); Unhashable "['10.0.0.2']"] 0 1 2 3)
    as (_ & _ & Hbad & _ & Herr).
  - discriminate.
  - split; [|exact Herr]. apply Hbad. exists "['10.0.0.2']"%string.
    right. left.
Defined.

End ReportProps.

(** ** Regimes: linear counting, and a filter with every bit set *)

Module Regimes.
Import HLL HLLProps CountProps Report EstimatorRuns.

Lemma ln_le_minus_1 (y : R) : (0 < y)%R -> (ln y <= y - 1)%R.
Proof.
  intros Hy. pose proof (exp_ineq1_le (ln y)) as H.
  rewrite exp_ln in H by done. lra.
Qed.

Lemma spec_Z_ge_V (regs : list Z) : (IZR (spec_V regs) <= spec_Z regs)%R.
Proof.
  unfold spec_V. induction regs as [|r regs IH]; cbn [spec_Z foldr].
  { rewrite filter_nil. change (Z.of_nat (length [])) with 0. lra. }
  fold (spec_Z regs). pose proof (pow2_neg_pos r).
  destruct (decide (r = 0)) as [->|Hr].
  - rewrite filter_cons_True by done. cbn [length].
    rewrite Nat2Z.inj_succ, succ_IZR. change (powerRZ 2 (- 0)) with 1%R. lra.
  - rewrite filter_cons_False by done. lra.
Qed.

(** X19. Linear counting: on an estimator with [p <= 25], while at least
    three registers in ten are still 0, [count] returns the linear-counting
    estimate [m * ln (m / V)]. *)
Theorem linear_counting_regime (self : HyperLogLog) :
  reachable self -> p self <= 25 ->
  3 * m self <= 10 * spec_V (registers self) ->
  count self
  = Ok (IZR (m self) * ln (IZR (m self) / IZR (spec_V (registers self))))%R.
Proof.
  intros Hreach Hp HV. pose proof (reachable_shape _ Hreach) as [Hregs Hm].
  pose proof (estimator_reachable_wf _ Hreach) as [Hp0 Hm2 Hlen].
  assert (Hm25 : m self <= 2 ^ 25)
    by (rewrite Hm2; apply Z.pow_le_mono_r; lia).
  set (M := IZR (m self)). set (V := IZR (spec_V (registers self))).
  assert (HM : (0 < M)%R) by (by apply IZR_lt).
  assert (HM25 : (M <= 33554432)%R) by (apply IZR_le; exact Hm25).
  assert (HVM : (3 * M <= 10 * V)%R).
  { unfold M, V. rewrite <- !mult_IZR. by apply IZR_le. }
  assert (HVle : (V <= M)%R).
  { apply IZR_le. pose proof (spec_V_le_length (registers self)). lia. }
  assert (HVpos : (0 < V)%R) by lra.
  assert (HVz : 0 < spec_V (registers self)) by (apply lt_IZR; exact HVpos).
  pose proof (spec_Z_ge_V (registers self)) as HZ. fold V in HZ.
  assert (Ha : (0 < alpha self <= 1)%R)
    by (rewrite reachable_alpha by done; by apply get_alpha_bounds).
  assert (Halpha : (alpha self < 3 / 4)%R).
  { rewrite reachable_alpha by done. unfold _get_alpha.
    destruct (m self =? 16); [lra|]. destruct (m self =? 32); [lra|].
    destruct (m self =? 64); [lra|].
    assert (Hq : (0 < 1079 / 1000 / M)%R) by (apply Rdiv_lt_0_compat; lra).
    fold M. apply (Rmult_lt_reg_r (1 + 1079 / 1000 / M)); [lra|].
    unfold Rdiv at 1. rewrite Rmult_assoc, Rinv_l by lra. lra. }
  assert (Hsmall : spec_small_range (alpha self) (m self) (registers self)
                   = (M * ln (M / V))%R).
  { unfold spec_small_range. cbv zeta. rewrite decide_True by done.
    destruct (Rle_dec _ _) as [|Hn]; [done|]. destruct Hn.
    unfold spec_raw. fold M.
    apply Rle_trans with (alpha self * (M * M) / V)%R.
    - unfold Rdiv. apply Rmult_le_compat_l; [nra|].
      apply Rinv_le_contravar; lra.
    - apply (Rmult_le_reg_r V); [done|].
      unfold Rdiv. rewrite Rmult_assoc, Rinv_l by lra. nra. }
  rewrite count_unfold by done. cbv zeta. rewrite Hsmall.
  destruct (Rlt_dec _ _) as [Hbig|]; [|done]. exfalso.
  assert (Hq : (0 < M / V <= 10 / 3)%R).
  { split; [by apply Rdiv_lt_0_compat|].
    apply (Rmult_le_reg_r V); [done|].
    unfold Rdiv at 1. rewrite Rmult_assoc, Rinv_l by lra. lra. }
  pose proof (ln_le_minus_1 (M / V) (proj1 Hq)) as Hln.
  assert (HE : (M * ln (M / V) <= M * (7 / 3))%R)
    by (apply Rmult_le_compat_l; lra).
  assert (H32 : (2 ^ 32 = 4294967296)%R) by (simpl; lra).
  rewrite H32 in Hbig. lra.
Qed.

Lemma linear_counting_regime_witness :
  count (fresh_state 4)
  = Ok (IZR (m (fresh_state 4))
        * ln (IZR (m (fresh_state 4))
              / IZR (spec_V (registers (fresh_state 4)))))%R.
Proof.
  apply (linear_counting_regime (fresh_state 4)).
  - exists (VInt 4), (fresh_state 4), []. split; reflexivity.
  - vm_compute. discriminate.
  - vm_compute. discriminate.
Defined.

Section Hashes.

Variable md5_int : list byte -> Z.
Variable sha256_int : list byte -> Z.

(** X20. False positives exist: once every bit of a filter is 1, [check]
    returns [True] for every item but [None], added or not. *)
Theorem saturated_filter_accepts (self : Bloom.BloomFilter) (x : value) :
  Bloom.reachable md5_int sha256_int self ->
  Forall (fun b => b = 1) (Bloom.bit_array self) ->
  x ≠ VNone ->
  Bloom.check md5_int sha256_int self x = Ok true.
Proof.
  intros Hwf%BloomProps.filter_reachable_wf Hones Hx.
  rewrite BloomProps.check_some by done. f_equal. apply bool_decide_eq_true_2.
  pose proof (BloomProps.spec_probes_range md5_int sha256_int self x
                (Bloom.wf_size _ Hwf)) as Hr.
  unfold Bloom.all_set. eapply Forall_impl; [exact Hr|].
  intros i Hi. simpl in Hi.
  destruct (lookup_lt_is_Some_2 (Bloom.bit_array self) (Z.to_nat i)) as [b Hb].
  { pose proof (Bloom.wf_length _ Hwf). lia. }
  rewrite Hb. f_equal. exact (proj1 (Forall_lookup _ _) Hones _ _ Hb).
Qed.

End Hashes.

(** [BloomFilter(size=1, num_hashes=1)] after one [add]: its only bit is
    set, and a password that was never added is reported as present. *)
Lemma saturated_filter_accepts_witness :
  Bloom.check Bloom.md5_table Bloom.sha256_table
    {| Bloom.size := 1; Bloom.num_hashes := 1; Bloom.bit_array := [1] |}
    (VStr "newpassword") = Ok true.
Proof.
  apply saturated_filter_accepts.
  - exists (VInt 1), (VInt 1),
      {| Bloom.size := 1; Bloom.num_hashes := 1; Bloom.bit_array := [0] |},
      [VStr "admin123"]. split; reflexivity.
  - repeat constructor.
  - discriminate.
Defined.

End Regimes.
